(** * Chat backend: conversation and message consistency

    A shallow embedding of the chat controller (REST handlers) and of the
    socket event handlers, over the Mongoose schemas [Conversation] and
    [Message].  Collections are lists of documents in insertion order;
    a handler is a function from the state of the world (the collections,
    the id generator and the number of clock readings taken so far) to a
    response and a new state. *)

From Stdlib Require Import ZArith NArith List Bool String Ascii Lia Sorted.
Import ListNotations.
Local Open Scope string_scope.
Local Open Scope Z_scope.
Local Open Scope list_scope.

(** ** Data model (src/schema) *)

(** A Mongo ObjectId, by value.  A request field holding an id is the hex
    spelling of that value, and ids are compared by value. *)
Definition ObjectId := N.
Bind Scope N_scope with ObjectId.

(** A JS [Date], as milliseconds since the epoch. *)
Definition Date := Z.
Bind Scope Z_scope with Date.

Definition oid_eqb (a b : ObjectId) : bool := N.eqb a b.

(** [IParticipant]; every optional field has the schema default [null]
    ([false] for [blocked]). *)
Record Participant := mkParticipant {
  userId : ObjectId;
  deletedAt : option Date;
  hideMessagesBefore : option Date;
  archivedAt : option Date;
  mutedUntil : option Date;
  blocked : bool
}.

(** [{ userId: u }] once the schema defaults are applied. *)
Definition newParticipant (u : ObjectId) : Participant :=
  mkParticipant u None None None None false.

Inductive ConversationType := private | group.

Definition is_private (t : ConversationType) : bool :=
  match t with private => true | group => false end.

Record LastMessage := mkLastMessage {
  messageId : ObjectId;
  lm_text : option string;
  sentAt : Date
}.

(** [IConversation]. *)
Record Conversation := mkConversation {
  conv_id : ObjectId;
  type : ConversationType;
  participants : list Participant;
  groupName : option string;
  groupPhoto : option string;
  lastMessage : option LastMessage;
  conv_createdAt : Date;
  conv_updatedAt : Date
}.

Inductive AttachmentType := image | video | file.

Record Attachment := mkAttachment {
  att_type : AttachmentType;
  url : string
}.

(** [IMessage]. *)
Record Message := mkMessage {
  msg_id : ObjectId;
  conversationId : ObjectId;
  senderId : ObjectId;
  text : option string;
  attachments : list Attachment;
  isDeletedForEveryone : bool;
  deletedFor : list ObjectId;
  seenBy : list ObjectId;
  deliveredTo : list ObjectId;
  createdAt : Date;
  updatedAt : Date
}.

(** The part of a user document the chat controller reads. *)
Record User := mkUser {
  user_id : ObjectId;
  username : string;
  isActive : bool
}.

(** ** Field updates on documents *)

Definition set_deleted (d h : option Date) (p : Participant) : Participant :=
  mkParticipant (userId p) d h (archivedAt p) (mutedUntil p) (blocked p).

Definition set_deletedAt (d : option Date) (p : Participant) : Participant :=
  set_deleted d (hideMessagesBefore p) p.

Definition set_participants (ps : list Participant) (c : Conversation) : Conversation :=
  mkConversation (conv_id c) (type c) ps (groupName c) (groupPhoto c)
                 (lastMessage c) (conv_createdAt c) (conv_updatedAt c).

Definition set_lastMessage (lm : option LastMessage) (c : Conversation) : Conversation :=
  mkConversation (conv_id c) (type c) (participants c) (groupName c) (groupPhoto c)
                 lm (conv_createdAt c) (conv_updatedAt c).

Definition set_conv_updatedAt (t : Date) (c : Conversation) : Conversation :=
  mkConversation (conv_id c) (type c) (participants c) (groupName c) (groupPhoto c)
                 (lastMessage c) (conv_createdAt c) t.

Definition set_isDeletedForEveryone (b : bool) (m : Message) : Message :=
  mkMessage (msg_id m) (conversationId m) (senderId m) (text m) (attachments m)
            b (deletedFor m) (seenBy m) (deliveredTo m) (createdAt m) (updatedAt m).

Definition set_updatedAt (t : Date) (m : Message) : Message :=
  mkMessage (msg_id m) (conversationId m) (senderId m) (text m) (attachments m)
            (isDeletedForEveryone m) (deletedFor m) (seenBy m) (deliveredTo m)
            (createdAt m) t.

(** ** Array paths of the message schema

    An update or a filter names a field by its path.  The message schema
    declares three arrays of user ids; under Mongoose's strict mode an
    update of a path the schema does not declare is dropped. *)

Definition mem (u : ObjectId) (l : list ObjectId) : bool := existsb (oid_eqb u) l.

Definition set_array (path : string) (f : list ObjectId -> list ObjectId)
    (m : Message) : Message :=
  if String.eqb path "deletedFor" then
    mkMessage (msg_id m) (conversationId m) (senderId m) (text m) (attachments m)
              (isDeletedForEveryone m) (f (deletedFor m)) (seenBy m) (deliveredTo m)
              (createdAt m) (updatedAt m)
  else if String.eqb path "seenBy" then
    mkMessage (msg_id m) (conversationId m) (senderId m) (text m) (attachments m)
              (isDeletedForEveryone m) (deletedFor m) (f (seenBy m)) (deliveredTo m)
              (createdAt m) (updatedAt m)
  else if String.eqb path "deliveredTo" then
    mkMessage (msg_id m) (conversationId m) (senderId m) (text m) (attachments m)
              (isDeletedForEveryone m) (deletedFor m) (seenBy m) (f (deliveredTo m))
              (createdAt m) (updatedAt m)
  else m.

(** [{ $addToSet: { path: u } }] and [{ $push: { path: u } }]. *)
Definition addToSet (path : string) (u : ObjectId) : Message -> Message :=
  set_array path (fun l => if mem u l then l else l ++ [u]).

Definition push (path : string) (u : ObjectId) : Message -> Message :=
  set_array path (fun l => l ++ [u]).

(** ** Requests and responses *)

(** A request field that should hold an ObjectId string: absent (or
    falsy), present but rejected by [ObjectId.isValid], or the spelling of
    an id. *)
Inductive IdParam :=
| Missing
| Malformed
| ValidId (id : ObjectId).

Inductive Body :=
| JMessage (message : string)
| JConversation (conv : Conversation)
| JMessageConversation (message : string) (conv : Conversation)
| JMessages (convId : ObjectId) (conversationType : ConversationType)
            (items : list Message) (nextCursor : option Date) (hasMore : bool)
| JHidden (message : string) (convId : ObjectId) (at_ : Date).

(** What a handler sends back: an HTTP status with a JSON body, or the
    acknowledgement payload of a socket event. *)
Inductive Response :=
| Http (status : nat) (body : Body)
| Ack (ok : bool) (message : option string)
| AckSent (msg : Message).

(** ** The world and the handler monad *)

Record World := mkWorld {
  conversations : list Conversation;
  messages : list Message;
  users : list User;
  next_oid : ObjectId;
  reads : nat
}.

Definition with_conversations (cs : list Conversation) (w : World) : World :=
  mkWorld cs (messages w) (users w) (next_oid w) (reads w).

Definition with_messages (ms : list Message) (w : World) : World :=
  mkWorld (conversations w) ms (users w) (next_oid w) (reads w).

(** A handler step either yields a value or has already sent the response
    (the [return res.status(..).json(..)] of the source). *)
Definition Handler (A : Type) : Type := World -> (A + Response) * World.

Definition ret {A} (a : A) : Handler A := fun w => (inl a, w).

Definition bind {A B} (m : Handler A) (k : A -> Handler B) : Handler B :=
  fun w => match m w with
           | (inl a, w') => k a w'
           | (inr r, w') => (inr r, w')
           end.

Definition respond {A} (r : Response) : Handler A := fun w => (inr r, w).

Declare Scope handler_scope.
Delimit Scope handler_scope with handler.
Notation "x <- m ;; k" := (bind m (fun x => k))
  (at level 61, m at next level, right associativity) : handler_scope.
Notation "m ;; k" := (bind m (fun _ => k))
  (at level 61, right associativity) : handler_scope.
Local Open Scope handler_scope.

(** [if (b) return r;] *)
Definition reject_if (b : bool) (r : Response) : Handler unit :=
  if b then respond r else ret tt.

(** [if (!x) return r;] for a value that may be [null]. *)
Definition or_reject {A} (o : option A) (r : Response) : Handler A :=
  match o with Some a => ret a | None => respond r end.

Definition run (h : Handler Response) (w : World) : Response * World :=
  match h w with
  | (inl r, w') => (r, w')
  | (inr r, w') => (r, w')
  end.

(** Reading the collections. *)
Definition find_conversation (q : Conversation -> bool) : Handler (option Conversation) :=
  fun w => (inl (find q (conversations w)), w).

Definition find_message (q : Message -> bool) : Handler (option Message) :=
  fun w => (inl (find q (messages w)), w).

Definition all_messages : Handler (list Message) :=
  fun w => (inl (messages w), w).

Definition find_user (u : ObjectId) : Handler (option User) :=
  fun w => (inl (find (fun x => oid_eqb (user_id x) u) (users w)), w).

(** A new ObjectId. *)
Definition fresh_oid : Handler ObjectId :=
  fun w => (inl (next_oid w),
            mkWorld (conversations w) (messages w) (users w)
                    (N.succ (next_oid w)) (reads w)).

(** First element of [l] satisfying [q] updated by [f]: what [updateOne]
    does to a collection, and what the positional operator [$] does to an
    array. *)
Fixpoint update_first {A} (q : A -> bool) (f : A -> A) (l : list A) : list A :=
  match l with
  | [] => []
  | x :: r => if q x then f x :: r else x :: update_first q f r
  end.

(** Writing a document back under its [_id] (unique in a collection). *)
Definition replace_conv (c : Conversation) (cs : list Conversation) : list Conversation :=
  update_first (fun x => oid_eqb (conv_id x) (conv_id c)) (fun _ => c) cs.

Definition replace_msg (m : Message) (ms : list Message) : list Message :=
  update_first (fun x => oid_eqb (msg_id x) (msg_id m)) (fun _ => m) ms.

(** [.sort({ createdAt: -1 })]: newest first, documents with equal
    timestamps kept in collection order. *)
Fixpoint insert_desc (m : Message) (l : list Message) : list Message :=
  match l with
  | [] => [m]
  | x :: r => if createdAt x <? createdAt m then m :: l else x :: insert_desc m r
  end.

Definition sort_desc (l : list Message) : list Message :=
  fold_right insert_desc [] l.

(** ** Query objects on messages

    A filter is a JS object from paths to conditions.  Spreading an object
    into another assigns its properties one by one, so a property spread
    later replaces an earlier one with the same key. *)

Inductive Cond :=
| Eq (v : ObjectId)
| Ne (v : ObjectId)
| In_ (vs : list ObjectId)
| Gt (d : Date)
| Lt (d : Date)
| IsBool (b : bool).

Definition Filter := list (string * Cond).

Fixpoint assign (k : string) (c : Cond) (o : Filter) : Filter :=
  match o with
  | [] => [(k, c)]
  | (k', c') :: r => if String.eqb k' k then (k', c) :: r else (k', c') :: assign k c r
  end.

(** [{ ...o1, ...o2 }] *)
Definition spread (o1 o2 : Filter) : Filter :=
  fold_left (fun o kc => assign (fst kc) (snd kc) o) o2 o1.

Inductive Value :=
| VId (i : ObjectId)
| VIds (l : list ObjectId)
| VDate (d : Date)
| VBool (b : bool)
| VAbsent.

(** The value a message document holds at a path; a path the schema does
    not declare holds nothing. *)
Definition field (path : string) (m : Message) : Value :=
  if String.eqb path "_id" then VId (msg_id m)
  else if String.eqb path "conversationId" then VId (conversationId m)
  else if String.eqb path "senderId" then VId (senderId m)
  else if String.eqb path "deletedFor" then VIds (deletedFor m)
  else if String.eqb path "seenBy" then VIds (seenBy m)
  else if String.eqb path "deliveredTo" then VIds (deliveredTo m)
  else if String.eqb path "createdAt" then VDate (createdAt m)
  else if String.eqb path "updatedAt" then VDate (updatedAt m)
  else if String.eqb path "isDeletedForEveryone" then VBool (isDeletedForEveryone m)
  else VAbsent.

(** Mongo's matching: an equality on an array field holds when an element
    is equal, [$ne] is its negation (and holds on an absent field). *)
Definition cond_holds (c : Cond) (v : Value) : bool :=
  match c, v with
  | Eq x, VId i => oid_eqb i x
  | Eq x, VIds l => mem x l
  | Ne x, VId i => negb (oid_eqb i x)
  | Ne x, VIds l => negb (mem x l)
  | Ne _, _ => true
  | In_ xs, VId i => mem i xs
  | Gt d, VDate t => d <? t
  | Lt d, VDate t => t <? d
  | IsBool b, VBool b' => Bool.eqb b b'
  | _, _ => false
  end.

Definition matches (q : Filter) (m : Message) : bool :=
  forallb (fun kc => cond_holds (snd kc) (field (fst kc) m)) q.

(** ** Queries on conversations *)

(** [{ participants: { $elemMatch: q } }] *)
Definition elemMatch (q : Participant -> bool) (c : Conversation) : bool :=
  existsb q (participants c).

Definition is_user (u : ObjectId) (p : Participant) : bool := oid_eqb (userId p) u.

Definition is_null {A} (o : option A) : bool :=
  match o with None => true | Some _ => false end.

(** JS truthiness of a [Date | null] field: a Date object is truthy. *)
Definition truthy {A} (o : option A) : bool := negb (is_null o).

(** ** Strings *)

Definition is_space (c : ascii) : bool :=
  match nat_of_ascii c with
  | 9%nat | 10%nat | 11%nat | 12%nat | 13%nat | 32%nat => true
  | _ => false
  end.

Fixpoint trim_start (l : list ascii) : list ascii :=
  match l with
  | [] => []
  | c :: r => if is_space c then trim_start r else l
  end.

(** [s.trim()], on ASCII white space. *)
Definition trim (s : string) : string :=
  string_of_list_ascii
    (rev (trim_start (rev (trim_start (list_ascii_of_string s))))).

(** [isNonEmptyString(value)]: a string whose trimmed form is not empty. *)
Definition isNonEmptyString (v : option string) : option string :=
  match v with
  | Some s => if String.eqb (trim s) "" then None else Some s
  | None => None
  end.

(** [s || null]: the empty string is falsy. *)
Definition or_null (v : option string) : option string :=
  match v with
  | Some s => if String.eqb s "" then None else Some s
  | None => None
  end.

(** [s ?? ''] and [s || '']. *)
Definition or_empty (v : option string) : string :=
  match v with Some s => s | None => "" end.

(** [isValid(id)] followed by the use of the id. *)
Definition valid_id (p : IdParam) (r : Response) : Handler ObjectId :=
  match p with
  | ValidId i => ret i
  | _ => respond r
  end.

(** [Array.from(new Set(l))]: first occurrences, in order. *)
Fixpoint dedup (l : list ObjectId) : list ObjectId :=
  match l with
  | [] => []
  | x :: r => x :: filter (fun y => negb (oid_eqb y x)) (dedup r)
  end.

Definition valid_ids (l : list IdParam) : list ObjectId :=
  flat_map (fun p => match p with ValidId i => [i] | _ => [] end) l.

(** ** Effects: the clock and the collections *)

Section Clock.

(** The wall clock: [wall n] is the time shown at the [n]-th reading made
    since the server started ([new Date()], or the timestamp Mongoose
    stamps on a document when it writes it). *)
Variable wall : nat -> Date.

Definition now : Handler Date :=
  fun w => (inl (wall (reads w)),
            mkWorld (conversations w) (messages w) (users w)
                    (next_oid w) (S (reads w))).

(** [Conversation.create(..)]: the schema gives the document an [_id] and,
    with [timestamps: true], [createdAt] and [updatedAt]. *)
Definition create_conversation (ty : ConversationType) (ps : list Participant)
    (name photo : option string) : Handler Conversation :=
  i <- fresh_oid ;;
  t <- now ;;
  let c := mkConversation i ty ps name photo None t t in
  fun w => (inl c, with_conversations (conversations w ++ [c]) w).

(** [conv.save()]: the document is written back and [updatedAt] stamped.
    (Mongoose skips the write of a document no path of which was modified;
    the write is made here in every case, which can only differ in
    [updatedAt].) *)
Definition save_conversation (c : Conversation) : Handler Conversation :=
  t <- now ;;
  let c' := set_conv_updatedAt t c in
  fun w => (inl c', with_conversations (replace_conv c' (conversations w)) w).

(** [Message.create(..)]: schema defaults for the flags and the arrays,
    and the timestamps. *)
Definition create_message (cid sender : ObjectId) (txt : option string)
    (atts : list Attachment) : Handler Message :=
  i <- fresh_oid ;;
  t <- now ;;
  let m := mkMessage i cid sender txt atts false [] [] [] t t in
  fun w => (inl m, with_messages (messages w ++ [m]) w).

(** [msg.save()], likewise. *)
Definition save_message (m : Message) : Handler Message :=
  t <- now ;;
  let m' := set_updatedAt t m in
  fun w => (inl m', with_messages (replace_msg m' (messages w)) w).

(** [Message.updateMany(filter, update)] and [Message.updateOne]; an
    update through the model also stamps [updatedAt]. *)
Definition update_many_messages (q : Message -> bool) (f : Message -> Message)
    : Handler unit :=
  t <- now ;;
  fun w => (inl tt,
            with_messages
              (map (fun m => if q m then set_updatedAt t (f m) else m) (messages w)) w).

Definition update_one_message (q : Message -> bool) (f : Message -> Message)
    : Handler unit :=
  t <- now ;;
  fun w => (inl tt,
            with_messages
              (update_first q (fun m => set_updatedAt t (f m)) (messages w)) w).

(** [Conversation.updateOne(filter, update)]. *)
Definition update_one_conversation (q : Conversation -> bool)
    (f : Conversation -> Conversation) : Handler unit :=
  t <- now ;;
  fun w => (inl tt,
            with_conversations
              (update_first q (fun c => set_conv_updatedAt t (f c)) (conversations w)) w).

(** ** REST handlers (chat controller)

    [meId] is the identity the [protect] middleware attached to the
    request.  [populate] only replaces user references by public profile
    fields in the body sent back; bodies here carry the documents. *)

(** The two lookups of [getOrCreatePrivateConversation]: a private
    conversation of the pair in which one of them is blocked, and one in
    which both sides have [deletedAt: null]. *)
Definition blocked_query (meId pid : ObjectId) (c : Conversation) : bool :=
  is_private (type c)
  && (elemMatch (is_user meId) c && elemMatch (is_user pid) c)
  && (elemMatch (fun p => is_user meId p && blocked p) c
      || elemMatch (fun p => is_user pid p && blocked p) c).

Definition active_query (meId pid : ObjectId) (c : Conversation) : bool :=
  is_private (type c)
  && (elemMatch (fun p => is_user meId p && is_null (deletedAt p)) c
      && elemMatch (fun p => is_user pid p && is_null (deletedAt p)) c).

(** POST /private *)
Definition getOrCreatePrivateConversation (meId : ObjectId) (participantId : IdParam)
    : Handler Response :=
  pid <- match participantId with
         | Missing => respond (Http 400 (JMessage "participantId required"))
         | Malformed => respond (Http 400 (JMessage "invalid id"))
         | ValidId i => ret i
         end ;;
  blockedExisting <- find_conversation (blocked_query meId pid) ;;
  reject_if (truthy blockedExisting) (Http 403 (JMessage "Conversation not allowed")) ;;
  active <- find_conversation (active_query meId pid) ;;
  match active with
  | Some c => ret (Http 200 (JConversation c))
  | None =>
      conv <- create_conversation private [newParticipant meId; newParticipant pid]
                                  None None ;;
      ret (Http 201 (JConversation conv))
  end.

(** [Math.min(Number(req.query.limit) || dflt, 100)], for a query value
    that is absent, not a number, or a natural number. *)
Definition page_limit (q : option nat) (dflt : nat) : nat :=
  Nat.min (match q with Some (S n) => S n | _ => dflt end) 100.

(** The filter of the [Message.find] in [getMessagesByConversationId]. *)
Definition listing_filter (cid userId_ : ObjectId) (hideBefore before : option Date)
    : Filter :=
  let timeFilter := match before with Some b => [("createdAt", Lt b)] | None => [] end in
  spread
    (spread [("conversationId", Eq cid); ("deletedFor", Ne userId_)]
            (match hideBefore with Some h => [("createdAt", Gt h)] | None => [] end))
    timeFilter.

(** The access check of [getMessagesByConversationId]:
    [{ _id, 'participants.userId': userId, 'participants.deletedAt': null }];
    each dotted condition holds when some element of the array meets it. *)
Definition access_query (userId_ cid : ObjectId) (c : Conversation) : bool :=
  oid_eqb (conv_id c) cid
  && existsb (is_user userId_) (participants c)
  && existsb (fun p => is_null (deletedAt p)) (participants c).

(** [participant?.hideMessagesBefore || null] *)
Definition hideBefore_of (userId_ : ObjectId) (c : Conversation) : option Date :=
  match find (is_user userId_) (participants c) with
  | Some p => hideMessagesBefore p
  | None => None
  end.

(** The filter of the mark-as-read [updateMany] of the same handler. *)
Definition read_filter (cid userId_ : ObjectId) : Filter :=
  [("conversationId", Eq cid); ("senderId", Ne userId_); ("readBy", Ne userId_)].

(** GET /:conversationId/messages; [limitQ] is the number given as
    [limit] ([None] when absent or not a number), [before] the date given
    as cursor. *)
Definition getMessagesByConversationId (userId_ : ObjectId) (conversationId_ : IdParam)
    (limitQ : option nat) (before : option Date) : Handler Response :=
  cid <- valid_id conversationId_ (Http 400 (JMessage "Invalid conversation ID.")) ;;
  found <- find_conversation (access_query userId_ cid) ;;
  conversation <- or_reject found
    (Http 404 (JMessage "Conversation not found or access denied.")) ;;
  let hideBefore := hideBefore_of userId_ conversation in
  let limit := page_limit limitQ 30 in
  all <- all_messages ;;
  let msgs := firstn (S limit)
                (sort_desc (filter (matches (listing_filter (conv_id conversation)
                                               userId_ hideBefore before)) all)) in
  let hasMore := (limit <? List.length msgs)%nat in
  let items := if hasMore then firstn limit msgs else msgs in
  let nextCursor := if hasMore
                    then option_map createdAt (nth_error items (List.length items - 1))
                    else None in
  update_many_messages (matches (read_filter (conv_id conversation) userId_))
                       (addToSet "readBy" userId_) ;;
  ret (Http 200 (JMessages (conv_id conversation) (type conversation)
                           (rev items) nextCursor hasMore)).

(** POST /messages/seen; [messageIds] is [None] when the body field is
    not an array. *)
Definition markMessagesSeen (meId : ObjectId) (messageIds : option (list ObjectId))
    : Handler Response :=
  match messageIds with
  | Some (i :: r) =>
      update_many_messages (matches [("_id", In_ (i :: r)); ("seenBy", Ne meId)])
                           (push "seenBy" meId) ;;
      ret (Http 200 (JMessage "Marked seen"))
  | _ => respond (Http 400 (JMessage "messageIds required"))
  end.

(** DELETE /message/:messageId/me *)
Definition deleteMessageForMe (meId : ObjectId) (messageId_ : IdParam) : Handler Response :=
  mid <- valid_id messageId_ (Http 400 (JMessage "invalid message id")) ;;
  update_one_message (matches [("_id", Eq mid)]) (addToSet "deletedFor" meId) ;;
  ret (Http 200 (JMessage "Deleted for you")).

(** The [Message.findOne(..).sort({ createdAt: -1 })] that recomputes the
    last message. *)
Definition latest_active (cid : ObjectId) (ms : list Message) : option Message :=
  hd_error (sort_desc (filter (matches [("conversationId", Eq cid);
                                        ("isDeletedForEveryone", IsBool false)]) ms)).

(** DELETE /message/:messageId/everyone *)
Definition deleteMessageForEveryone (meId : ObjectId) (messageId_ : IdParam)
    : Handler Response :=
  mid <- valid_id messageId_ (Http 400 (JMessage "invalid message id")) ;;
  found <- find_message (fun m => oid_eqb (msg_id m) mid) ;;
  msg <- or_reject found (Http 404 (JMessage "Message not found")) ;;
  reject_if (negb (oid_eqb (senderId msg) meId))
            (Http 403 (JMessage "Only sender can delete for everyone")) ;;
  msg <- save_message (set_isDeletedForEveryone true msg) ;;
  conv <- find_conversation (fun c => oid_eqb (conv_id c) (conversationId msg)) ;;
  match conv with
  | Some conv =>
      let isLast := match lastMessage conv with
                    | Some lm => oid_eqb (messageId lm) mid
                    | None => false
                    end in
      if isLast then
        all <- all_messages ;;
        let latest := latest_active (conversationId msg) all in
        let conv := set_lastMessage
                      (match latest with
                       | Some l => Some (mkLastMessage (msg_id l)
                                           (Some (or_empty (text l)))
                                           (createdAt l))
                       | None => None
                       end) conv in
        t <- now ;;
        save_conversation (set_conv_updatedAt t conv) ;;
        ret tt
      else ret tt
  | None => ret tt
  end ;;
  ret (Http 200 (JMessage "Deleted for everyone")).

(** DELETE /conversation/:conversationId *)
Definition deleteConversationForUser (meId : ObjectId) (convId : IdParam)
    : Handler Response :=
  cid <- valid_id convId (Http 400 (JMessage "invalid conversation id")) ;;
  found <- find_conversation (fun c => oid_eqb (conv_id c) cid) ;;
  conv <- or_reject found (Http 404 (JMessage "Conversation not found")) ;;
  t <- now ;;
  let conv := set_participants
                (map (fun p => if is_user meId p
                               then set_deleted (Some t) (Some t) p
                               else p)
                     (participants conv)) conv in
  conv <- save_conversation conv ;;
  ret (Http 200 (JMessageConversation "Conversation deleted for you" conv)).

(** DELETE /softdelete; [user] is [None] when the request carries no
    authenticated user. *)
Definition softDeleteConversation (user : option ObjectId) (conversationId_ : IdParam)
    : Handler Response :=
  authUserId <- or_reject user
    (Http 401 (JMessage "Authenticated user context is missing or invalid.")) ;;
  cid <- valid_id conversationId_
    (Http 400 (JMessage "conversationId must be a valid ObjectId string.")) ;;
  found <- find_conversation (fun c => oid_eqb (conv_id c) cid) ;;
  conversation <- or_reject found (Http 404 (JMessage "Conversation not found.")) ;;
  participant <- or_reject (find (is_user authUserId) (participants conversation))
    (Http 403 (JMessage "You are not a participant in this conversation.")) ;;
  reject_if (blocked participant)
    (Http 403 (JMessage "Conversation cannot be deleted while blocked.")) ;;
  t <- now ;;
  reject_if (match deletedAt participant, hideMessagesBefore participant with
             | Some d, Some h => d =? h
             | _, _ => false
             end)
    (Http 200 (JMessage "Conversation already deleted for this user.")) ;;
  let conversation :=
    set_participants
      (update_first (is_user authUserId) (set_deleted (Some t) (Some t))
                    (participants conversation)) conversation in
  save_conversation conversation ;;
  ret (Http 200 (JHidden "Conversation hidden successfully for the current user."
                         cid t)).

(** The lookup of [handlePrivateConversation]:
    [{ type: 'private', 'participants.userId': { $all: [a, b] } }]. *)
Definition existing_query (a b : ObjectId) (c : Conversation) : bool :=
  is_private (type c)
  && (existsb (is_user a) (participants c) && existsb (is_user b) (participants c)).

(** The branch of [createConversation] for [type: 'private']. *)
Definition handlePrivateConversation (authUserId : ObjectId) (targetUserId : IdParam)
    (initialMessage : option string) : Handler Response :=
  tid <- valid_id targetUserId
    (Http 400 (JMessage "targetUserId must be a valid ObjectId string.")) ;;
  initial <- or_reject (isNonEmptyString initialMessage)
    (Http 400 (JMessage "An initial message is required to start a private conversation.")) ;;
  reject_if (oid_eqb tid authUserId)
    (Http 400 (JMessage "You cannot start a private chat with yourself.")) ;;
  foundUser <- find_user tid ;;
  targetUser <- or_reject foundUser (Http 404 (JMessage "The target user was not found.")) ;;
  existingConversation <- find_conversation (existing_query authUserId tid) ;;
  match existingConversation with
  | Some existing =>
      reject_if (negb (List.length (participants existing) =? 2)%nat)
        (Http 409 (JMessage
           "A conflicting private conversation exists with invalid participants.")) ;;
      match find (is_user authUserId) (participants existing),
            find (is_user (user_id targetUser)) (participants existing) with
      | Some authParticipant, Some targetParticipant =>
          reject_if (blocked authParticipant || blocked targetParticipant)
            (Http 403 (JMessage "One of the participants has blocked this conversation.")) ;;
          reject_if (truthy (deletedAt targetParticipant))
            (Http 403 (JMessage
               "The other participant has hidden this chat. They must restore it first.")) ;;
          existing <- (if truthy (deletedAt authParticipant)
                       then save_conversation
                              (set_participants
                                 (update_first (is_user authUserId) (set_deleted None None)
                                               (participants existing)) existing)
                       else ret existing) ;;
          ret (Http 200 (JMessageConversation "Private conversation restored." existing))
      | _, _ =>
          respond (Http 409 (JMessage
            "Existing conversation is missing participants metadata."))
      end
  | None =>
      t <- now ;;
      createdConversation <-
        create_conversation private
          [newParticipant authUserId; newParticipant (user_id targetUser)] None None ;;
      message <- create_message (conv_id createdConversation) authUserId
                                (Some (trim initial)) [] ;;
      createdConversation <-
        save_conversation
          (set_lastMessage
             (Some (mkLastMessage (msg_id message) (Some (or_empty (text message))) t))
             createdConversation) ;;
      ret (Http 201 (JMessageConversation "Private conversation created successfully."
                                          createdConversation))
  end.

(** The branch of [createConversation] for [type: 'group'];
    [participantIds] is [None] when the body field is not an array. *)
Definition handleGroupConversation (authUserId : ObjectId)
    (participantIds : option (list IdParam)) (groupName_ groupPhoto_ : option string)
    (groupMessage : option string) : Handler Response :=
  ids <- or_reject (match participantIds with
                    | Some l => if (List.length l <? 2)%nat then None else Some l
                    | None => None
                    end)
    (Http 400 (JMessage
       "A group chat requires at least two additional participant IDs besides the creator.")) ;;
  name <- or_reject (isNonEmptyString groupName_)
    (Http 400 (JMessage "Group name is required for a group conversation.")) ;;
  let uniqueParticipantIds := dedup (valid_ids ids) in
  reject_if (negb (List.length uniqueParticipantIds =? List.length ids)%nat)
    (Http 400 (JMessage
       "All participant IDs must be valid, non-duplicate ObjectId strings.")) ;;
  reject_if (existsb (fun i => oid_eqb i authUserId) uniqueParticipantIds)
    (Http 400 (JMessage
       "Do not include yourself in the participantIds list; you are added automatically.")) ;;
  found <- (fun w => (inl (filter (fun u => mem (user_id u) uniqueParticipantIds)
                                  (users w)), w)) ;;
  reject_if (negb (List.length found =? List.length uniqueParticipantIds)%nat)
    (Http 404 (JMessage "One or more participant users could not be found.")) ;;
  createdConversation <-
    create_conversation group
      (newParticipant authUserId :: map newParticipant uniqueParticipantIds)
      (Some (trim name)) groupPhoto_ ;;
  match isNonEmptyString groupMessage with
  | Some gm =>
      createdMessage <- create_message (conv_id createdConversation) authUserId
                                       (Some (trim gm)) [] ;;
      createdConversation <-
        save_conversation
          (set_lastMessage
             (Some (mkLastMessage (msg_id createdMessage)
                                  (Some (or_empty (text createdMessage)))
                                  (createdAt createdMessage)))
             createdConversation) ;;
      ret (Http 201 (JMessageConversation
                       "Group conversation and initial message created successfully."
                       createdConversation))
  | None =>
      ret (Http 201 (JMessageConversation "Group conversation created successfully."
                                          createdConversation))
  end.

(** The body of POST /create-con. *)
Inductive CreateBody :=
| CreatePrivate (targetUserId : IdParam) (initialMessage : option string)
| CreateGroup (participantIds : option (list IdParam)) (groupName_ groupPhoto_ : option string)
              (message : option string)
| CreateOther.

Definition createConversation (user : option ObjectId) (b : CreateBody) : Handler Response :=
  authUserId <- or_reject user
    (Http 401 (JMessage "Authenticated user context is missing or invalid.")) ;;
  match b with
  | CreateOther =>
      respond (Http 400 (JMessage "Conversation type must be either 'private' or 'group'."))
  | CreatePrivate t i => handlePrivateConversation authUserId t i
  | CreateGroup ids n p m => handleGroupConversation authUserId ids n p m
  end.

(** ** Socket event handlers

    [user] is the user attached to the socket at connection.  Room
    membership and emitted events are not part of the stored state. *)

(** send:message *)
Definition send_message (user : ObjectId) (conversationId_ : IdParam)
    (text_ : option string) (attachments_ : option (list Attachment)) : Handler Response :=
  cid <- valid_id conversationId_ (Ack false (Some "Invalid conversationId")) ;;
  found <- find_conversation (fun c => oid_eqb (conv_id c) cid) ;;
  conv <- or_reject found (Ack false (Some "Conversation not found")) ;;
  reject_if (negb (existsb (is_user user) (participants conv)))
            (Ack false (Some "Not a participant")) ;;
  msg <- create_message cid user (option_map trim (or_null text_))
                        (match attachments_ with Some l => l | None => [] end) ;;
  t <- now ;;
  save_conversation
    (set_conv_updatedAt t
       (set_lastMessage (Some (mkLastMessage (msg_id msg) (or_null text_) (createdAt msg)))
                        conv)) ;;
  ret (AckSent msg).

(** message:deleteForEveryone *)
Definition message_deleteForEveryone (user : ObjectId) (messageId_ : IdParam)
    : Handler Response :=
  mid <- valid_id messageId_ (Ack false None) ;;
  found <- find_message (fun m => oid_eqb (msg_id m) mid) ;;
  msg <- or_reject found (Ack false (Some "Message not found")) ;;
  reject_if (negb (oid_eqb (senderId msg) user)) (Ack false (Some "Not sender")) ;;
  save_message (set_isDeletedForEveryone true msg) ;;
  ret (Ack true None).

(** chat:delete *)
Definition chat_delete (user : ObjectId) (conversationId_ : IdParam) : Handler Response :=
  cid <- valid_id conversationId_ (Ack false None) ;;
  t <- now ;;
  update_one_conversation
    (fun c => oid_eqb (conv_id c) cid && existsb (is_user user) (participants c))
    (fun c => set_participants
                (update_first (is_user user) (set_deletedAt (Some t)) (participants c)) c) ;;
  ret (Ack true None).

(** ** Requests as data *)

Inductive Request :=
| PostPrivate (meId : ObjectId) (participantId : IdParam)
| GetMessages (meId : ObjectId) (conversationId_ : IdParam) (limitQ : option nat)
              (before : option Date)
| PostSeen (meId : ObjectId) (messageIds : option (list ObjectId))
| DeleteMessageMe (meId : ObjectId) (messageId_ : IdParam)
| DeleteMessageEveryone (meId : ObjectId) (messageId_ : IdParam)
| DeleteConversation (meId : ObjectId) (convId : IdParam)
| PostCreate (user : option ObjectId) (b : CreateBody)
| DeleteSoft (user : option ObjectId) (conversationId_ : IdParam)
| SockSend (user : ObjectId) (conversationId_ : IdParam) (text_ : option string)
           (attachments_ : option (list Attachment))
| SockDeleteEveryone (user : ObjectId) (messageId_ : IdParam)
| SockChatDelete (user : ObjectId) (conversationId_ : IdParam).

Definition handle (r : Request) : Handler Response :=
  match r with
  | PostPrivate me p => getOrCreatePrivateConversation me p
  | GetMessages me c l b => getMessagesByConversationId me c l b
  | PostSeen me ids => markMessagesSeen me ids
  | DeleteMessageMe me m => deleteMessageForMe me m
  | DeleteMessageEveryone me m => deleteMessageForEveryone me m
  | DeleteConversation me c => deleteConversationForUser me c
  | PostCreate u b => createConversation u b
  | DeleteSoft u c => softDeleteConversation u c
  | SockSend u c t a => send_message u c t a
  | SockDeleteEveryone u m => message_deleteForEveryone u m
  | SockChatDelete u c => chat_delete u c
  end.

(** The world after a sequence of requests served one after the other. *)
Fixpoint serve (rs : list Request) (w : World) : World :=
  match rs with
  | [] => w
  | r :: rest => serve rest (snd (run (handle r) w))
  end.

End Clock.

Definition empty_world : World := mkWorld [] [] [] 1%N 0.

(** ** Further handlers *)

(** [{ participants: { $elemMatch: { userId: meId, deletedAt: null } } }]:
    the conversations shown to a user. *)
Definition visible_to (meId : ObjectId) (c : Conversation) : bool :=
  elemMatch (fun p => is_user meId p && is_null (deletedAt p)) c.

(** [.sort({ updatedAt: -1 })] on conversations, documents with equal
    timestamps kept in collection order. *)
Fixpoint insert_updated_desc (c : Conversation) (l : list Conversation)
    : list Conversation :=
  match l with
  | [] => [c]
  | x :: r => if conv_updatedAt x <? conv_updatedAt c then c :: l
              else x :: insert_updated_desc c r
  end.

Definition sort_updated_desc (l : list Conversation) : list Conversation :=
  fold_right insert_updated_desc [] l.

(** GET /: the array sent back (status 200). *)
Definition getConversations (meId : ObjectId) : Handler (list Conversation) :=
  fun w => (inl (sort_updated_desc (filter (visible_to meId) (conversations w))), w).

Section MoreHandlers.

Variable wall : nat -> Date.

(** message:seen; one [updateOne] per id, here in the order of the array. *)
Fixpoint seen_each (user : ObjectId) (ids : list ObjectId) : Handler unit :=
  match ids with
  | [] => ret tt
  | mid :: rest =>
      update_one_message wall (matches [("_id", Eq mid); ("seenBy", Ne user)])
                         (addToSet "seenBy" user) ;;
      seen_each user rest
  end.

Definition message_seen (user : ObjectId) (messageIds : option (list ObjectId))
    : Handler Response :=
  match messageIds with
  | Some (i :: r) => seen_each user (i :: r) ;; ret (Ack true None)
  | _ => respond (Ack false None)
  end.

(** message:deleteForMe *)
Definition message_deleteForMe (user : ObjectId) (messageId_ : IdParam)
    : Handler Response :=
  mid <- valid_id messageId_ (Ack false None) ;;
  update_one_message wall (matches [("_id", Eq mid)]) (addToSet "deletedFor" user) ;;
  ret (Ack true None).

(** Every request that may write: the REST requests and socket events of
    [Request], and the two socket events above. *)
Inductive Event :=
| Served (r : Request)
| SockSeen (user : ObjectId) (messageIds : option (list ObjectId))
| SockDeleteForMe (user : ObjectId) (messageId_ : IdParam).

Definition handle_event (e : Event) : Handler Response :=
  match e with
  | Served r => handle wall r
  | SockSeen u ids => message_seen u ids
  | SockDeleteForMe u m => message_deleteForMe u m
  end.

Fixpoint serve_events (es : list Event) (w : World) : World :=
  match es with
  | [] => w
  | e :: rest => serve_events rest (snd (run (handle_event e) w))
  end.

End MoreHandlers.

(** ** The [protect] middleware (authMiddleware.ts) *)

(** [s.split(sep)[1]] for a non-empty separator: the text between the
    first and the second occurrence of [sep] (up to the end when there is
    no second one); undefined when [sep] does not occur. *)
Definition split_second (sep s : string) : option string :=
  match index 0 sep s with
  | None => None
  | Some i =>
      let from := (i + String.length sep)%nat in
      let rest := substring from (String.length s - from) s in
      match index 0 sep rest with
      | None => Some rest
      | Some j => Some (substring 0 j rest)
      end
  end.

(** The token read from the [Authorization] header, when the header is
    given and has one of the two formats. *)
Definition header_token (authorization : option string) : option string :=
  match or_null authorization with
  | None => None
  | Some h =>
      let authHeader := trim h in
      if prefix "Bearer " authHeader then split_second " " authHeader
      else if prefix "token=" authHeader then
        match split_second "token=" authHeader with
        | Some value =>
            match index 0 "du" value with
            | Some endIndex => Some (substring 0 endIndex value)
            | None => Some value
            end
        | None => None
        end
      else None
  end.

(** The token [protect] goes on with: the header's, or else the cookie's;
    an empty string counts as no token. *)
Definition extract_token (authorization cookie : option string) : option string :=
  match or_null (header_token authorization) with
  | Some t => Some t
  | None => or_null cookie
  end.

Section Protect.

(** [verifyToken]: the user id in the payload of a token whose signature
    and expiry are accepted; [None] when verification throws, or when the
    payload's id is no ObjectId and [findById] throws in the same [try]. *)
Variable verifyToken : string -> option ObjectId.

(** [protect]: the id of the user attached to the request when [next] is
    called. *)
Definition protect (authorization cookie : option string) : Handler ObjectId :=
  token <- or_reject (extract_token authorization cookie)
             (Http 401 (JMessage "No token, authorization denied")) ;;
  match verifyToken token with
  | None => respond (Http 401 (JMessage "Not authorized, token failed"))
  | Some id =>
      found <- find_user id ;;
      user <- or_reject found (Http 401 (JMessage "User not found")) ;;
      ret (user_id user)
  end.

End Protect.

(** A string without white space. *)
Definition no_space (s : string) : Prop :=
  Forall (fun c => is_space c = false) (list_ascii_of_string s).

(** A string of visible ASCII characters (codes 33 to 126), as the
    characters of a token are. *)
Definition visible_ascii (s : string) : Prop :=
  Forall (fun c => (32 < nat_of_ascii c < 127)%nat) (list_ascii_of_string s).

(** A response that refuses the request: an HTTP status from 400 on, or a
    negative acknowledgement. *)
Definition is_rejection (r : Response) : bool :=
  match r with
  | Http st _ => (400 <=? st)%nat
  | Ack ok _ => negb ok
  | AckSent _ => false
  end.

(** How a stored message may differ after a request: its identity,
    conversation, sender, content and creation time are the same, the
    deleted-for-everyone flag is not reset, and the three user arrays
    only grow. *)
Definition msg_evolves (m m' : Message) : Prop :=
  msg_id m' = msg_id m
  /\ conversationId m' = conversationId m
  /\ senderId m' = senderId m
  /\ text m' = text m
  /\ attachments m' = attachments m
  /\ createdAt m' = createdAt m
  /\ (isDeletedForEveryone m = true -> isDeletedForEveryone m' = true)
  /\ incl (deletedFor m) (deletedFor m')
  /\ incl (seenBy m) (seenBy m')
  /\ incl (deliveredTo m) (deliveredTo m').

(** The same for a participant record and a conversation: only the two
    soft-delete fields of a participant, and [lastMessage] and [updatedAt]
    of the conversation, may differ. *)
Definition participant_evolves (p p' : Participant) : Prop :=
  p' = set_deleted (deletedAt p') (hideMessagesBefore p') p.

Definition conv_evolves (c c' : Conversation) : Prop :=
  Forall2 participant_evolves (participants c) (participants c')
  /\ c' = set_conv_updatedAt (conv_updatedAt c')
            (set_lastMessage (lastMessage c')
               (set_participants (participants c') c)).

(** A collection after a request: the documents it held, each evolved, in
    the same order, followed by the new ones. *)
Definition grows {A} (R : A -> A -> Prop) (l l' : list A) : Prop :=
  exists old new, l' = old ++ new /\ Forall2 R l old.



Definition page_hasMore (r : Response) : bool :=
  match r with
  | Http _ (JMessages _ _ _ _ b) => b
  | _ => false
  end.


(** The user arrays of a message hold no user twice. *)
Definition arrays_nodup (m : Message) : Prop :=
  NoDup (seenBy m) /\ NoDup (deletedFor m) /\ NoDup (deliveredTo m).

(** The user on whose behalf a request is made. *)
Definition actor (e : Event) : option ObjectId :=
  match e with
  | Served (PostPrivate u _) => Some u
  | Served (GetMessages u _ _ _) => Some u
  | Served (PostSeen u _) => Some u
  | Served (DeleteMessageMe u _) => Some u
  | Served (DeleteMessageEveryone u _) => Some u
  | Served (DeleteConversation u _) => Some u
  | Served (PostCreate u _) => u
  | Served (DeleteSoft u _) => u
  | Served (SockSend u _ _ _) => Some u
  | Served (SockDeleteEveryone u _) => Some u
  | Served (SockChatDelete u _) => Some u
  | SockSeen u _ => Some u
  | SockDeleteForMe u _ => Some u
  end.

(** What a stored message owes to the request of user [a]: [a] may have
    been added to [seenBy] and [deletedFor], and the message may be
    deleted for everyone only if [a] sent it. *)
Definition msg_acted_by (a : option ObjectId) (m m' : Message) : Prop :=
  (forall x, In x (seenBy m') -> In x (seenBy m) \/ a = Some x)
  /\ (forall x, In x (deletedFor m') -> In x (deletedFor m) \/ a = Some x)
  /\ deliveredTo m' = deliveredTo m
  /\ (isDeletedForEveryone m' = isDeletedForEveryone m \/ a = Some (senderId m)).

(** What a stored conversation owes to the request of user [a]: only the
    participant records of [a] may differ. *)
Definition conv_acted_by (a : option ObjectId) (c c' : Conversation) : Prop :=
  Forall2 (fun p p' => p' = p \/ a = Some (userId p)) (participants c) (participants c').



(** A conversation whose [lastMessage], when set, names a stored message
    of that conversation. *)
Definition last_stored (ms : list Message) (c : Conversation) : Prop :=
  forall l, lastMessage c = Some l ->
            exists m, In m ms /\ msg_id m = messageId l /\ conversationId m = conv_id c.


(** A conversation after a request: its [lastMessage] is the one of a
    conversation stored before under the same id, or names a message
    stored now. *)
Definition last_kept_or_stored (cs : list Conversation) (ms' : list Message)
    (c' : Conversation) : Prop :=
  (exists c, In c cs /\ lastMessage c' = lastMessage c /\ conv_id c' = conv_id c)
  \/ last_stored ms' c'.

(** ** Notions used in the statements *)

(** The private conversations stored between two users. *)
Definition private_between (a b : ObjectId) (w : World) : list Conversation :=
  filter (existing_query a b) (conversations w).

(** The items of a message page. *)
Definition page_items (r : Response) : list Message :=
  match r with
  | Http _ (JMessages _ _ items _ _) => items
  | _ => []
  end.

(** The page served to a viewer with access to conversation [c]. *)
Definition page_of (w : World) (u : ObjectId) (c : Conversation)
    (limitQ : option nat) (before : option Date) : list Message :=
  rev (firstn (page_limit limitQ 30)
         (sort_desc (filter (matches (listing_filter (conv_id c) u
                                        (hideBefore_of u c) before))
                            (messages w)))).

(** Marking messages as deleted for everyone, on any set of messages. *)
Definition tombstone (d : Message -> bool) (m : Message) : Message :=
  if d m then set_isDeletedForEveryone true m else m.




(** ** Invariant of the conversation collection

    Ids are unique and below the id generator; a private conversation has
    two participant records; a watermark is only set together with
    [deletedAt]. *)

Definition lockstep (p : Participant) : Prop :=
  deletedAt p = None -> hideMessagesBefore p = None.

Definition wf_conversation (c : Conversation) : Prop :=
  (type c = private -> List.length (participants c) = 2%nat)
  /\ Forall lockstep (participants c).

Record wf (w : World) : Prop := mk_wf {
  wf_ids : NoDup (map conv_id (conversations w));
  wf_fresh : Forall (fun c => (conv_id c < next_oid w)%N) (conversations w);
  wf_convs : Forall wf_conversation (conversations w)
}.

(** ** Sample data

    A clock that advances by one millisecond at each reading, two users,
    and the worlds a few requests lead to. *)

Definition clock (n : nat) : Date := 1000 + Z.of_nat n.

Definition alice : ObjectId := 7%N.
Definition bob : ObjectId := 8%N.

Definition two_users : World :=
  mkWorld [] [] [mkUser alice "alice" true; mkUser bob "bob" true] 1%N 0.

(** Alice starts a private conversation with Bob by sending "hi". *)
Definition hi_world : World :=
  serve clock [PostCreate (Some alice) (CreatePrivate (ValidId bob) (Some "hi"))] two_users.

(** Alice then hides the conversation, and Bob answers. *)
Definition hidden_world : World :=
  serve clock [DeleteSoft (Some alice) (ValidId 1%N);
               SockSend bob (ValidId 1%N) (Some "again") None] hi_world.

(** Instead, Alice sends a picture with a caption and deletes it for
    everyone. *)
Definition retracted_world : World :=
  serve clock [SockSend alice (ValidId 1%N) (Some "secret")
                        (Some [mkAttachment image "https://cdn.example/p.png"]);
               DeleteMessageEveryone alice (ValidId 3%N)] hi_world.

(** * Properties *)

(** ** Lists *)

Lemma find_app_none {A} (q : A -> bool) (l1 l2 : list A) :
  find q l1 = None -> find q (l1 ++ l2) = find q l2.
Proof.
  induction l1 as [|x l1 IH]; simpl; [reflexivity|].
  destruct (q x); [discriminate | exact IH].
Qed.

Lemma oid_eqb_refl (a : ObjectId) : oid_eqb a a = true.
Proof. apply N.eqb_refl. Qed.

Lemma oid_eqb_eq (a b : ObjectId) : oid_eqb a b = true <-> a = b.
Proof. apply N.eqb_eq. Qed.

Lemma oid_eqb_neq (a b : ObjectId) : oid_eqb a b = false <-> a <> b.
Proof. apply N.eqb_neq. Qed.

Lemma firstn_In {A} (n : nat) (l : list A) (x : A) : In x (firstn n l) -> In x l.
Proof.
  revert l. induction n as [|n IH]; intros [|y l]; simpl; try tauto.
  intros [->|H]; [now left | right; auto].
Qed.

Lemma firstn_page {A} (n : nat) (l : list A) :
  (if (n <? List.length (firstn (S n) l))%nat
   then firstn n (firstn (S n) l)
   else firstn (S n) l) = firstn n l.
Proof.
  destruct (Nat.ltb_spec n (List.length (firstn (S n) l))) as [H|H].
  - rewrite firstn_firstn. f_equal. lia.
  - rewrite length_firstn in H.
    assert (Hl : (List.length l <= n)%nat) by lia.
    rewrite !firstn_all2; auto.
Qed.

Lemma insert_desc_in (m x : Message) (l : list Message) :
  In x (insert_desc m l) <-> x = m \/ In x l.
Proof.
  induction l as [|y l IH]; simpl; [intuition congruence|].
  destruct (createdAt y <? createdAt m); simpl; rewrite ?IH; intuition congruence.
Qed.

Lemma sort_desc_in (x : Message) (l : list Message) :
  In x (sort_desc l) <-> In x l.
Proof.
  induction l as [|y l IH]; simpl; [tauto|].
  rewrite insert_desc_in, IH. intuition congruence.
Qed.

Lemma insert_desc_map (g : Message -> Message) (m : Message) (l : list Message) :
  (forall x, createdAt (g x) = createdAt x) ->
  insert_desc (g m) (map g l) = map g (insert_desc m l).
Proof.
  intros Hg. induction l as [|y l IH]; simpl; [reflexivity|].
  rewrite !Hg. destruct (createdAt y <? createdAt m); simpl; [reflexivity|].
  now rewrite IH.
Qed.

Lemma sort_desc_map (g : Message -> Message) (l : list Message) :
  (forall x, createdAt (g x) = createdAt x) ->
  sort_desc (map g l) = map g (sort_desc l).
Proof.
  intros Hg. induction l as [|y l IH]; simpl; [reflexivity|].
  fold (sort_desc (map g l)) (sort_desc l).
  now rewrite IH, insert_desc_map.
Qed.

Lemma filter_map_same {A} (p : A -> bool) (g : A -> A) (l : list A) :
  (forall x, p (g x) = p x) ->
  filter p (map g l) = map g (filter p l).
Proof.
  intros Hg. induction l as [|y l IH]; simpl; [reflexivity|].
  rewrite Hg. destruct (p y); simpl; now rewrite IH.
Qed.

(** The head of a list sorted newest first is a newest element. *)
Lemma insert_desc_head (m : Message) (l : list Message) :
  (forall h, hd_error l = Some h -> forall x, In x l -> createdAt x <= createdAt h) ->
  forall h, hd_error (insert_desc m l) = Some h ->
  forall x, In x (insert_desc m l) -> createdAt x <= createdAt h.
Proof.
  destruct l as [|y l]; simpl.
  - intros _ h [= <-] x [<-|[]]. lia.
  - intros Hl h. specialize (Hl y eq_refl).
    destruct (Z.ltb_spec (createdAt y) (createdAt m)) as [Hlt|Hge]; simpl.
    + intros [= <-] x [<-|[<-|Hx]]; try lia.
      specialize (Hl x (or_intror Hx)). lia.
    + intros [= <-] x [<-|Hx]; [lia|].
      apply insert_desc_in in Hx. destruct Hx as [->|Hx]; [lia|].
      apply Hl. now right.
Qed.

Lemma sort_desc_head (l : list Message) (h : Message) :
  hd_error (sort_desc l) = Some h ->
  In h l /\ forall x, In x l -> createdAt x <= createdAt h.
Proof.
  intros Hh. split.
  - apply sort_desc_in. destruct (sort_desc l); [discriminate|].
    injection Hh as ->. now left.
  - intros x Hx. apply sort_desc_in in Hx. revert h Hh x Hx.
    induction l as [|y l IH]; simpl; [discriminate|].
    apply insert_desc_head. exact IH.
Qed.

Lemma sort_desc_nil (l : list Message) : sort_desc l = [] -> l = [].
Proof.
  destruct l as [|y l]; [reflexivity|]. intros H.
  assert (Hin : In y (sort_desc (y :: l))) by (apply sort_desc_in; now left).
  rewrite H in Hin. destruct Hin.
Qed.

Lemma update_first_length {A} (q : A -> bool) (f : A -> A) (l : list A) :
  List.length (update_first q f l) = List.length l.
Proof.
  induction l as [|x l IH]; simpl; [reflexivity|].
  destruct (q x); simpl; congruence.
Qed.

(** [update_first] changes at most the element [find] returns. *)
Lemma update_first_Forall2 {A} (R : A -> A -> Prop) (q : A -> bool) (f : A -> A)
    (l : list A) :
  (forall x, R x x) ->
  (forall x, q x = true -> R x (f x)) ->
  Forall2 R l (update_first q f l).
Proof.
  intros Hr Hf. induction l as [|x l IH]; simpl; [constructor|].
  destruct (q x) eqn:Hq.
  - constructor; [now apply Hf|]. clear IH. induction l; constructor; auto.
  - constructor; auto.
Qed.

Lemma Forall2_refl {A} (R : A -> A -> Prop) (l : list A) :
  (forall x, R x x) -> Forall2 R l l.
Proof. intros Hr. induction l; constructor; auto. Qed.

Lemma Forall2_map_r {A} (R : A -> A -> Prop) (f : A -> A) (l : list A) :
  (forall x, R x (f x)) -> Forall2 R l (map f l).
Proof. intros Hr. induction l; simpl; constructor; auto. Qed.

Lemma find_update_first {A} (q : A -> bool) (f : A -> A) (l : list A) (x : A) :
  find q l = Some x -> q (f x) = true -> find q (update_first q f l) = Some (f x).
Proof.
  induction l as [|y l IH]; simpl; [discriminate|].
  destruct (q y) eqn:Hq.
  - intros [= <-] Hf. simpl. now rewrite Hf.
  - intros Hx Hf. simpl. rewrite Hq. auto.
Qed.

Lemma update_first_find_Forall2 {A} (R : A -> A -> Prop) (q : A -> bool) (f : A -> A)
    (l : list A) (x : A) :
  (forall y, R y y) ->
  find q l = Some x -> R x (f x) ->
  Forall2 R l (update_first q f l).
Proof.
  intros Hr. induction l as [|y l IH]; simpl; [discriminate|].
  destruct (q y).
  - intros [= ->] Hx. constructor; [exact Hx | now apply Forall2_refl].
  - intros Hf Hx. constructor; auto.
Qed.



Lemma In_update_first {A} (q : A -> bool) (f : A -> A) (l : list A) (x : A) :
  find q l = Some x -> In (f x) (update_first q f l).
Proof.
  induction l as [|y r IH]; cbn [find update_first]; [discriminate|].
  destruct (q y).
  - intros [= ->]. now left.
  - intros H. right. auto.
Qed.

(** In a collection with unique ids, the lookup by the id of a stored
    document returns that document. *)
Lemma find_by_id_unique (cs : list Conversation) (c : Conversation) :
  NoDup (map conv_id cs) -> In c cs ->
  find (fun x => oid_eqb (conv_id x) (conv_id c)) cs = Some c.
Proof.
  induction cs as [|y r IH]; cbn [map find In]; [tauto|].
  intros Hnd Hin. inversion_clear Hnd as [|? ? Hy Hr].
  destruct (oid_eqb (conv_id y) (conv_id c)) eqn:He.
  - destruct Hin as [->|Hin]; [reflexivity|].
    apply oid_eqb_eq in He. exfalso. apply Hy. rewrite He. now apply in_map.
  - destruct Hin as [->|Hin]; [now rewrite oid_eqb_refl in He | auto].
Qed.

(** Unfolding of the handler monad and of the effects. *)
Ltac steps :=
  cbv beta iota zeta delta
    [run bind ret respond reject_if or_reject valid_id
     find_conversation find_message all_messages find_user fresh_oid now
     create_conversation save_conversation create_message save_message
     update_many_messages update_one_message update_one_conversation
     with_conversations with_messages
     conversations messages users next_oid reads].

Section Proofs.

Variable wall : nat -> Date.

(** ** Private create/get *)

Lemma new_pair_active (i : ObjectId) (t : Date) (meId pid : ObjectId) :
  active_query meId pid
    (mkConversation i private [newParticipant meId; newParticipant pid]
                    None None None t t) = true.
Proof.
  unfold active_query, elemMatch, is_user; simpl.
  rewrite !oid_eqb_refl; simpl. now rewrite orb_true_r.
Qed.

Lemma new_pair_not_blocked (i : ObjectId) (t : Date) (meId pid : ObjectId) :
  blocked_query meId pid
    (mkConversation i private [newParticipant meId; newParticipant pid]
                    None None None t t) = false.
Proof.
  unfold blocked_query, elemMatch, is_user; simpl.
  rewrite !andb_false_r; simpl. now rewrite ?andb_false_r.
Qed.

(** C1 (amended): two calls in a row of the private create/get operation
    for the same pair create at most one conversation, and the second call
    returns the conversation of the first and changes nothing.  A stored
    conversation is returned (status 200) only when both sides have
    [deletedAt = null] in it; when no such conversation exists, also when
    one side has soft-deleted the earlier one, a fresh conversation with
    two new participant records is appended (status 201). *)
Theorem getOrCreate_twice_returns_first
    (w w1 : World) (meId pid : ObjectId) (st : nat) (c : Conversation) :
  run (getOrCreatePrivateConversation wall meId (ValidId pid)) w
    = (Http st (JConversation c), w1) ->
  run (getOrCreatePrivateConversation wall meId (ValidId pid)) w1
    = (Http 200 (JConversation c), w1)
  /\ (st = 200%nat /\ w1 = w /\ In c (conversations w) /\ active_query meId pid c = true
      \/ st = 201%nat
         /\ find (active_query meId pid) (conversations w) = None
         /\ conversations w1 = conversations w ++ [c]
         /\ participants c = [newParticipant meId; newParticipant pid]).
Proof.
  unfold getOrCreatePrivateConversation. steps. destruct w as [cs ms us nid k]. steps.
  destruct (find (blocked_query meId pid) cs) as [b|] eqn:Hb; simpl; [discriminate|].
  destruct (find (active_query meId pid) cs) as [a|] eqn:Ha; simpl.
  - intros H; inversion H; subst; clear H. steps.
    rewrite Hb; simpl. rewrite Ha. split; [reflexivity|].
    left. apply find_some in Ha. tauto.
  - intros H; inversion H; subst; clear H. steps.
    rewrite (find_app_none _ _ _ Hb); simpl. rewrite new_pair_not_blocked; simpl.
    rewrite (find_app_none _ _ _ Ha); simpl. rewrite new_pair_active.
    split; [reflexivity|]. right. auto.
Qed.

(** ** Listing the messages of a conversation *)

Lemma listing_items (w : World) (u cid : ObjectId) (limitQ : option nat)
    (before : option Date) :
  page_items (fst (run (getMessagesByConversationId wall u (ValidId cid) limitQ before) w))
  = match find (access_query u cid) (conversations w) with
    | Some c => page_of w u c limitQ before
    | None => []
    end.
Proof.
  unfold getMessagesByConversationId, page_of. steps. destruct w as [cs ms us nid k]. steps.
  destruct (find (access_query u cid) cs) as [c|]; [|reflexivity].
  cbn [fst page_items]. now rewrite firstn_page.
Qed.

Lemma page_of_matches (w : World) (u : ObjectId) (c : Conversation)
    (limitQ : option nat) (before : option Date) (m : Message) :
  In m (page_of w u c limitQ before) ->
  In m (messages w)
  /\ matches (listing_filter (conv_id c) u (hideBefore_of u c) before) m = true.
Proof.
  unfold page_of. intros H.
  apply in_rev, firstn_In, sort_desc_in, filter_In in H. exact H.
Qed.

(** Whatever the watermark and the cursor, the filter keeps the
    conversation and the [deletedFor] conditions. *)
Lemma listing_filter_base (cid u : ObjectId) (h b : option Date) (m : Message) :
  matches (listing_filter cid u h b) m = true ->
  conversationId m = cid /\ mem u (deletedFor m) = false.
Proof.
  destruct h, b; simpl; intros H;
    repeat (apply andb_prop in H; destruct H as [? H]);
    (split; [now apply oid_eqb_eq | now apply negb_true_iff]).
Qed.

(** Spreading the cursor condition over the watermark condition replaces
    it: both are stored under the key [createdAt]. *)
Lemma listing_filter_cursor_drops_watermark (cid u : ObjectId) (h : option Date) (b : Date) :
  listing_filter cid u h (Some b) = listing_filter cid u None (Some b).
Proof. destruct h; reflexivity. Qed.

Lemma listing_excludes_deletedFor (w : World) (u : ObjectId) (p : IdParam)
    (limitQ : option nat) (before : option Date) (m : Message) :
  In m (page_items (fst (run (getMessagesByConversationId wall u p limitQ before) w))) ->
  mem u (deletedFor m) = false.
Proof.
  destruct p as [| |cid]; try (simpl; tauto).
  rewrite listing_items.
  destruct (find (access_query u cid) (conversations w)) as [c|]; [|simpl; tauto].
  intros H. apply page_of_matches in H. destruct H as [_ H].
  now apply listing_filter_base in H.
Qed.

(** Without a cursor the watermark is applied. *)
Lemma listing_first_page_respects_watermark (w : World) (u cid : ObjectId)
    (c : Conversation) (limitQ : option nat) (h : Date) (m : Message) :
  find (access_query u cid) (conversations w) = Some c ->
  hideBefore_of u c = Some h ->
  In m (page_items (fst (run (getMessagesByConversationId wall u (ValidId cid)
                                 limitQ None) w))) ->
  h < createdAt m.
Proof.
  intros Hc Hh. rewrite listing_items, Hc. intros H.
  apply page_of_matches in H. destruct H as [_ H]. rewrite Hh in H.
  simpl in H. repeat (apply andb_prop in H; destruct H as [? H]).
  now apply Z.ltb_lt.
Qed.

(** C9: listing the messages of a conversation leaves the [seenBy] set of
    every stored message as it was: the mark-as-read update names the path
    [readBy], which the message schema does not declare, so that no array
    of the document changes (only [updatedAt] is stamped). *)
Theorem listing_keeps_seenBy (w : World) (u : ObjectId) (p : IdParam)
    (limitQ : option nat) (before : option Date) :
  let w' := snd (run (getMessagesByConversationId wall u p limitQ before) w) in
  map seenBy (messages w') = map seenBy (messages w)
  /\ Forall2 (fun m m' => m' = set_updatedAt (updatedAt m') m) (messages w) (messages w').
Proof.
  unfold getMessagesByConversationId. steps. destruct w as [cs ms us nid k]. steps.
  destruct p as [| |cid]; cbn [snd];
    try (split; [reflexivity | apply Forall2_refl; now intros []]).
  destruct (find (access_query u cid) cs) as [c|]; cbn [snd];
    [| split; [reflexivity | apply Forall2_refl; now intros []]].
  generalize (matches (read_filter (conv_id c) u)); intros q.
  split.
  - rewrite map_map. apply map_ext. intros m. now destruct (q m).
  - apply Forall2_map_r. intros m. destruct (q m); now destruct m.
Qed.

Lemma listing_filter_tombstone (d : Message -> bool) (cid u : ObjectId)
    (h b : option Date) (m : Message) :
  matches (listing_filter cid u h b) (tombstone d m) = matches (listing_filter cid u h b) m.
Proof. unfold tombstone. destruct (d m); [|reflexivity]. now destruct h, b. Qed.

(** C2 (amended): the listing keeps the row of a message deleted for
    everyone in the returned sequence and serves it as it is stored.
    Deleting any set of messages for everyone changes nothing in a page but
    the flag of those rows (same rows, same order), and every row of a page
    is a stored document, with its stored text and attachments. *)
Theorem listing_serves_deleted_rows_as_stored (w : World) (u : ObjectId) (p : IdParam)
    (limitQ : option nat) (before : option Date) (d : Message -> bool) :
  page_items (fst (run (getMessagesByConversationId wall u p limitQ before)
                       (with_messages (map (tombstone d) (messages w)) w)))
  = map (tombstone d)
      (page_items (fst (run (getMessagesByConversationId wall u p limitQ before) w)))
  /\ forall m,
       In m (page_items (fst (run (getMessagesByConversationId wall u p limitQ before) w))) ->
       In m (messages w).
Proof.
  destruct p as [| |cid]; try (split; [reflexivity | simpl; tauto]).
  rewrite !listing_items. change (conversations (with_messages _ w)) with (conversations w).
  destruct (find (access_query u cid) (conversations w)) as [c|];
    [| split; [reflexivity | simpl; tauto]].
  split.
  - unfold page_of. change (messages (with_messages ?l w)) with l.
    rewrite filter_map_same by apply listing_filter_tombstone.
    rewrite sort_desc_map by (intros x; unfold tombstone; now destruct (d x)).
    now rewrite firstn_map, map_rev.
  - intros m H. now apply page_of_matches in H.
Qed.

(** ** Marking messages seen *)

(** C10: [markMessagesSeen] checks neither membership nor existence.  For
    a non-empty array of ids it answers 200 "Marked seen"; the outcome is a
    function of the message collection alone (no conversation is read or
    written): every message whose id is listed and whose [seenBy] lacks the
    user gets the user pushed, so that every listed message that exists is
    then seen by the user, and when no message has a listed id nothing
    changes and the answer is still the success. *)
Theorem markMessagesSeen_unchecked (w : World) (meId : ObjectId) (ids : list ObjectId) :
  ids <> [] ->
  let (r, w') := run (markMessagesSeen wall meId (Some ids)) w in
  r = Http 200 (JMessage "Marked seen")
  /\ conversations w' = conversations w
  /\ messages w'
     = map (fun m => if mem (msg_id m) ids && negb (mem meId (seenBy m))
                     then set_updatedAt (wall (reads w)) (push "seenBy" meId m)
                     else m) (messages w)
  /\ (forall m, In m (messages w) -> mem (msg_id m) ids = true ->
        exists m', In m' (messages w') /\ msg_id m' = msg_id m
                   /\ mem meId (seenBy m') = true)
  /\ ((forall m, In m (messages w) -> mem (msg_id m) ids = false) ->
        messages w' = messages w).
Proof.
  intros Hids. destruct ids as [|i ids]; [congruence|].
  unfold markMessagesSeen. steps. destruct w as [cs ms us nid k]. steps.
  assert (Hq : forall m, matches [("_id", In_ (i :: ids)); ("seenBy", Ne meId)] m
                         = mem (msg_id m) (i :: ids) && negb (mem meId (seenBy m))).
  { intros m. unfold matches. cbn [forallb fst snd field String.eqb Ascii.eqb Bool.eqb
      cond_holds]. now rewrite andb_true_r. }
  split; [reflexivity|]. split; [reflexivity|]. split.
  { apply map_ext. intros m. now rewrite Hq. }
  split.
  - intros m Hm Hid.
    exists (if mem (msg_id m) (i :: ids) && negb (mem meId (seenBy m))
            then set_updatedAt (wall k) (push "seenBy" meId m) else m).
    split.
    + apply in_map_iff. exists m. split; [now rewrite Hq | exact Hm].
    + rewrite Hid. cbn [andb]. destruct (mem meId (seenBy m)) eqn:Hs; cbn [negb].
      * now split.
      * split; [reflexivity|]. cbn. unfold mem. rewrite existsb_app. cbn.
        now rewrite oid_eqb_refl, orb_true_r.
  - intros Hno. rewrite <- (map_id ms) at 2. apply map_ext_in. intros m Hm.
    now rewrite Hq, (Hno m Hm).
Qed.

(** ** Deleting a conversation for one user *)




Lemma find_by_id (cid : ObjectId) (cs : list Conversation) (c : Conversation) :
  find (fun x => oid_eqb (conv_id x) cid) cs = Some c -> conv_id c = cid.
Proof. intros H. apply find_some in H. now apply oid_eqb_eq. Qed.


(** The REST operation writes both fields, with one clock reading, on
    every record of the caller in the conversation. *)
Lemma deleteConversationForUser_sets_both (w : World) (a cid : ObjectId)
    (conv : Conversation) :
  find (fun c => oid_eqb (conv_id c) cid) (conversations w) = Some conv ->
  exists conv',
    find (fun c => oid_eqb (conv_id c) cid)
         (conversations (snd (run (deleteConversationForUser wall a (ValidId cid)) w)))
      = Some conv'
    /\ participants conv'
       = map (fun p => if is_user a p
                       then set_deleted (Some (wall (reads w))) (Some (wall (reads w))) p
                       else p)
             (participants conv).
Proof.
  destruct w as [cs ms us nid k]. cbn [conversations reads]. intros Hc.
  unfold deleteConversationForUser. steps. rewrite Hc. cbn [snd].
  eexists. split.
  - unfold replace_conv. cbn [conv_id set_conv_updatedAt set_participants].
    rewrite (find_by_id _ _ _ Hc).
    apply (find_update_first _ (fun _ => _) cs conv Hc).
    cbn [conv_id set_conv_updatedAt set_participants].
    rewrite (find_by_id _ _ _ Hc). apply oid_eqb_refl.
  - reflexivity.
Qed.

(** The socket event [chat:delete] never writes a watermark. *)
Lemma chat_delete_keeps_watermarks (w : World) (a : ObjectId) (p : IdParam) :
  Forall2 (fun c c' => map hideMessagesBefore (participants c')
                       = map hideMessagesBefore (participants c))
          (conversations w) (conversations (snd (run (chat_delete wall a p) w))).
Proof.
  destruct w as [cs ms us nid k]. unfold chat_delete. steps.
  destruct p as [| |cid]; cbn [snd]; try (now apply Forall2_refl).
  apply update_first_Forall2; [reflexivity|].
  intros c _. cbn [participants set_conv_updatedAt set_participants].
  induction (participants c) as [|x l IH]; [reflexivity|].
  simpl. destruct (is_user a x); simpl; [reflexivity | now rewrite IH].
Qed.

(** ** Deleting a message for everyone *)

Lemma active_filter_holds (cid : ObjectId) (x : Message) :
  matches [("conversationId", Eq cid); ("isDeletedForEveryone", IsBool false)] x
  = oid_eqb (conversationId x) cid && negb (isDeletedForEveryone x).
Proof.
  unfold matches. cbn [forallb fst snd field String.eqb Ascii.eqb Bool.eqb cond_holds].
  rewrite andb_true_r. now destruct (isDeletedForEveryone x).
Qed.

(** What the recomputation query returns: a newest message of the
    conversation that is not deleted for everyone, if there is one. *)
Lemma latest_active_spec (cid : ObjectId) (ms : list Message) :
  match latest_active cid ms with
  | Some l =>
      In l ms /\ conversationId l = cid /\ isDeletedForEveryone l = false
      /\ forall x, In x ms -> conversationId x = cid -> isDeletedForEveryone x = false ->
                   createdAt x <= createdAt l
  | None =>
      forall x, In x ms -> conversationId x = cid -> isDeletedForEveryone x = true
  end.
Proof.
  unfold latest_active.
  destruct (hd_error _) as [l|] eqn:Hh.
  - apply sort_desc_head in Hh. destruct Hh as [Hin Hmax].
    apply filter_In in Hin. destruct Hin as [Hin Hp].
    rewrite active_filter_holds in Hp. apply andb_prop in Hp. destruct Hp as [Hc Hd].
    apply oid_eqb_eq in Hc. apply negb_true_iff in Hd.
    repeat split; auto.
    intros x Hx Hxc Hxd. apply Hmax. apply filter_In. split; [exact Hx|].
    rewrite active_filter_holds, Hxc, Hxd. now rewrite oid_eqb_refl.
  - destruct (sort_desc _) eqn:Hs; [|discriminate].
    apply sort_desc_nil in Hs. intros x Hx Hxc.
    destruct (isDeletedForEveryone x) eqn:Hxd; [reflexivity|].
    assert (Hf : In x (filter (matches [("conversationId", Eq cid);
                                         ("isDeletedForEveryone", IsBool false)]) ms)).
    { apply filter_In. split; [exact Hx|].
      rewrite active_filter_holds, Hxc, Hxd. now rewrite oid_eqb_refl. }
    rewrite Hs in Hf. destruct Hf.
Qed.



(** ** Restoring a private conversation *)

(** The block guard of the create/get operation: nothing is written. *)
Lemma getOrCreate_blocked_rejected (w : World) (meId pid : ObjectId) (c : Conversation) :
  find (blocked_query meId pid) (conversations w) = Some c ->
  run (getOrCreatePrivateConversation wall meId (ValidId pid)) w
  = (Http 403 (JMessage "Conversation not allowed"), w).
Proof.
  intros H. unfold getOrCreatePrivateConversation. steps. destruct w. steps.
  cbn [conversations] in H. now rewrite H.
Qed.


(** ** The timestamp of the last-message projection *)

(** Creating a private conversation with its first message: [sentAt] is
    the clock reading made before the two documents were written, and the
    message is stamped two readings later. *)
Lemma handlePrivate_sentAt_is_call_time
    (w : World) (auth tid : ObjectId) (initial : option string) (target : User) :
  isNonEmptyString initial <> None ->
  tid <> auth ->
  find (fun u => oid_eqb (user_id u) tid) (users w) = Some target ->
  find (existing_query auth tid) (conversations w) = None ->
  let (r, w') := run (handlePrivateConversation wall auth (ValidId tid) initial) w in
  exists c m,
    r = Http 201 (JMessageConversation "Private conversation created successfully." c)
    /\ messages w' = messages w ++ [m]
    /\ option_map messageId (lastMessage c) = Some (msg_id m)
    /\ option_map sentAt (lastMessage c) = Some (wall (reads w))
    /\ createdAt m = wall (S (S (reads w))).
Proof.
  destruct w as [cs ms us nid k]. cbn [messages conversations users reads].
  intros Hi Hne Hu He.
  unfold handlePrivateConversation. steps.
  destruct (isNonEmptyString initial) as [s|]; [clear Hi | congruence].
  apply oid_eqb_neq in Hne. rewrite Hne, Hu, He.
  do 2 eexists. split; [reflexivity|]. split; [reflexivity|]. now cbn.
Qed.

(** The realtime send path takes [sentAt] from the stored message. *)
Lemma send_message_sentAt_is_createdAt
    (w : World) (user cid : ObjectId) (text_ : option string)
    (atts : option (list Attachment)) (conv : Conversation) :
  find (fun c => oid_eqb (conv_id c) cid) (conversations w) = Some conv ->
  existsb (is_user user) (participants conv) = true ->
  let (r, w') := run (send_message wall user (ValidId cid) text_ atts) w in
  exists m c',
    r = AckSent m
    /\ messages w' = messages w ++ [m]
    /\ find (fun c => oid_eqb (conv_id c) cid) (conversations w') = Some c'
    /\ option_map messageId (lastMessage c') = Some (msg_id m)
    /\ option_map sentAt (lastMessage c') = Some (createdAt m).
Proof.
  destruct w as [cs ms us nid k]. cbn [messages conversations users reads].
  intros Hc Hp. unfold send_message. steps. rewrite Hc, Hp. cbn [negb].
  do 2 eexists. split; [reflexivity|]. split; [reflexivity|]. split.
  - unfold replace_conv. cbn [conv_id set_conv_updatedAt set_lastMessage].
    rewrite (find_by_id _ _ _ Hc).
    apply (find_update_first _ (fun _ => _) cs conv Hc).
    cbn [conv_id set_conv_updatedAt set_lastMessage].
    rewrite (find_by_id _ _ _ Hc). apply oid_eqb_refl.
  - now cbn.
Qed.

(** So does the creation of a group with a first message. *)
Lemma handleGroup_sentAt_is_createdAt
    (w : World) (auth : ObjectId) (ids : option (list IdParam))
    (name photo message : option string) (c : Conversation) (lm : LastMessage) :
  fst (run (handleGroupConversation wall auth ids name photo message) w)
  = Http 201 (JMessageConversation
                "Group conversation and initial message created successfully." c) ->
  lastMessage c = Some lm ->
  exists m, In m (messages (snd (run (handleGroupConversation wall auth ids name photo
                                         message) w)))
            /\ messageId lm = msg_id m /\ sentAt lm = createdAt m.
Proof.
  destruct w as [cs ms us nid k].
  unfold handleGroupConversation. steps.
  destruct (match ids with Some l => _ | None => None end) as [l|]; [|discriminate].
  destruct (isNonEmptyString name) as [n|]; [|discriminate].
  destruct (negb (_ =? _)%nat); [discriminate|].
  destruct (existsb _ _); [discriminate|].
  destruct (negb (_ =? _)%nat); [discriminate|].
  destruct (isNonEmptyString message) as [gm|]; [|discriminate].
  cbn [fst snd]. intros [= <-]. cbn [lastMessage set_conv_updatedAt set_lastMessage].
  intros [= <-]. eexists. split; [apply in_or_app; right; now left|]. now cbn.
Qed.

(** ** The invariant is kept by every request *)

Lemma Forall_update_first {A} (P : A -> Prop) (q : A -> bool) (f : A -> A) (l : list A) :
  Forall P l -> (forall x, P x -> q x = true -> P (f x)) ->
  Forall P (update_first q f l).
Proof.
  intros Hl Hf. induction Hl as [|x l Hx Hl IH]; cbn [update_first]; [constructor|].
  destruct (q x) eqn:Hq; constructor; auto.
Qed.

Lemma wf_empty : wf empty_world.
Proof. split; constructor. Qed.

(** Writes that leave the conversations alone. *)
Lemma wf_keep (cs : list Conversation) (ms ms' : list Message) (us : list User)
    (n n' : ObjectId) (k k' : nat) :
  wf (mkWorld cs ms us n k) -> (n <= n')%N -> wf (mkWorld cs ms' us n' k').
Proof.
  intros [H1 H2 H3] Hn. split; cbn in *; auto.
  eapply Forall_impl; [|exact H2]. cbn. intros; lia.
Qed.

(** A new document under a fresh id. *)
Lemma wf_append (cs : list Conversation) (ms ms' : list Message) (us : list User)
    (n n' : ObjectId) (k k' : nat) (c : Conversation) :
  wf (mkWorld cs ms us n k) -> conv_id c = n -> (n < n')%N -> wf_conversation c ->
  wf (mkWorld (cs ++ [c]) ms' us n' k').
Proof.
  intros [H1 H2 H3] Hc Hn Hw. cbn in *. split; cbn.
  - rewrite map_app. cbn. apply NoDup_app; auto.
    + repeat constructor. intros [].
    + intros x Hx [<-|[]]. apply in_map_iff in Hx. destruct Hx as (y & Hy & Hin).
      rewrite Forall_forall in H2. specialize (H2 y Hin). lia.
  - apply Forall_app. split.
    + eapply Forall_impl; [|exact H2]. cbn. intros; lia.
    + repeat constructor. lia.
  - apply Forall_app. split; auto.
Qed.

(** A document written back, or updated in place. *)
Lemma wf_update (cs : list Conversation) (ms ms' : list Message) (us : list User)
    (n n' : ObjectId) (k k' : nat) (q : Conversation -> bool)
    (f : Conversation -> Conversation) :
  wf (mkWorld cs ms us n k) -> (n <= n')%N ->
  (forall x, wf_conversation x -> q x = true ->
             conv_id (f x) = conv_id x /\ wf_conversation (f x)) ->
  wf (mkWorld (update_first q f cs) ms' us n' k').
Proof.
  intros [H1 H2 H3] Hn Hf. cbn in *.
  assert (Hid : map conv_id (update_first q f cs) = map conv_id cs).
  { clear H1 H2. induction H3 as [|x l Hx Hl IH]; cbn [update_first map]; [reflexivity|].
    destruct (q x) eqn:Hq; cbn [map]; [|now rewrite IH].
    now rewrite (proj1 (Hf x Hx Hq)). }
  split; cbn.
  - now rewrite Hid.
  - apply Forall_forall. intros x Hx.
    assert (Hin : In (conv_id x) (map conv_id cs)) by (rewrite <- Hid; now apply in_map).
    apply in_map_iff in Hin. destruct Hin as (y & Hy & Hin).
    rewrite Forall_forall in H2. specialize (H2 y Hin). lia.
  - apply Forall_update_first; auto. intros x Hx Hq. now apply Hf.
Qed.

Lemma wf_replace (cs : list Conversation) (ms ms' : list Message) (us : list User)
    (n n' : ObjectId) (k k' : nat) (c : Conversation) :
  wf (mkWorld cs ms us n k) -> (n <= n')%N -> wf_conversation c ->
  wf (mkWorld (replace_conv c cs) ms' us n' k').
Proof.
  intros Hw Hn Hc. unfold replace_conv. eapply wf_update; eauto.
  intros x _ Hq. apply oid_eqb_eq in Hq. auto.
Qed.

Lemma wf_found (w : World) (q : Conversation -> bool) (c : Conversation) :
  wf w -> find q (conversations w) = Some c -> wf_conversation c.
Proof.
  intros [_ _ H] Hf. apply find_some in Hf. rewrite Forall_forall in H. now apply H.
Qed.

Lemma wf_conv_participants (c : Conversation) (ps : list Participant) :
  wf_conversation c -> List.length ps = List.length (participants c) ->
  Forall lockstep ps -> wf_conversation (set_participants ps c).
Proof.
  intros [H1 H2] Hl Hp. split; cbn; [|exact Hp].
  intros Ht. rewrite Hl. now apply H1.
Qed.

Lemma wf_conv_lastMessage (c : Conversation) (lm : option LastMessage) :
  wf_conversation c -> wf_conversation (set_lastMessage lm c).
Proof. now intros [H1 H2]. Qed.

Lemma wf_conv_updatedAt (c : Conversation) (t : Date) :
  wf_conversation c -> wf_conversation (set_conv_updatedAt t c).
Proof. now intros [H1 H2]. Qed.

Lemma wf_conv_new_pair (i a b : ObjectId) (t : Date) :
  wf_conversation (mkConversation i private [newParticipant a; newParticipant b]
                                  None None None t t).
Proof. split; [reflexivity | repeat constructor]. Qed.

Lemma wf_conv_new_group (i a : ObjectId) (ids : list ObjectId) (n p : option string)
    (t : Date) :
  wf_conversation (mkConversation i group (newParticipant a :: map newParticipant ids)
                                  n p None t t).
Proof.
  split; [discriminate|]. cbn. constructor; [now intros _|].
  apply Forall_map, Forall_forall. now intros x _ _.
Qed.

Lemma lockstep_update (q : Participant -> bool) (d h : option Date)
    (ps : list Participant) :
  (d = None -> h = None) -> Forall lockstep ps ->
  Forall lockstep (update_first q (set_deleted d h) ps).
Proof. intros Hd Hp. apply Forall_update_first; auto. Qed.

Lemma lockstep_mark (q : Participant -> bool) (t : Date) (ps : list Participant) :
  Forall lockstep ps ->
  Forall lockstep (update_first q (set_deletedAt (Some t)) ps).
Proof.
  intros Hp. apply Forall_update_first; auto. intros x _ _. now intros H.
Qed.

Lemma lockstep_map (a : ObjectId) (t : Date) (ps : list Participant) :
  Forall lockstep ps ->
  Forall lockstep (map (fun p => if is_user a p then set_deleted (Some t) (Some t) p else p)
                       ps).
Proof.
  intros Hp. apply Forall_map. eapply Forall_impl; [|exact Hp].
  intros x Hx. destruct (is_user a x); [now intros H | exact Hx].
Qed.

Ltac wf_conv :=
  repeat first
    [ apply wf_conv_updatedAt | apply wf_conv_lastMessage
    | apply wf_conv_new_pair | apply wf_conv_new_group
    | apply wf_conv_participants;
      [ | cbn [participants]; rewrite ?length_map, ?update_first_length; reflexivity
        | cbn [participants]; first [ apply lockstep_map | apply lockstep_mark
                                    | apply lockstep_update; [tauto|] ] ] ];
  eauto.

Ltac wf_world H :=
  cbn [snd];
  first
    [ exact H
    | apply (wf_keep _ _ _ _ _ _ _ _ H); lia
    | eapply wf_replace; [exact H | lia | wf_conv] ].

Lemma getOrCreate_wf (w : World) (meId : ObjectId) (p : IdParam) :
  wf w -> wf (snd (run (getOrCreatePrivateConversation wall meId p) w)).
Proof.
  intros H. destruct w as [cs ms us nid k].
  unfold getOrCreatePrivateConversation. steps.
  destruct p as [| |pid]; try exact H.
  destruct (find (blocked_query meId pid) cs); cbn [truthy is_null negb]; [exact H|].
  destruct (find (active_query meId pid) cs); [exact H|]. cbn [snd].
  apply (wf_append _ _ _ _ _ _ _ _ _ H); [reflexivity | lia | apply wf_conv_new_pair].
Qed.

Lemma getMessages_wf (w : World) (u : ObjectId) (p : IdParam) (l : option nat)
    (b : option Date) :
  wf w -> wf (snd (run (getMessagesByConversationId wall u p l b) w)).
Proof.
  intros H. destruct w as [cs ms us nid k].
  unfold getMessagesByConversationId. steps.
  destruct p as [| |cid]; try exact H.
  destruct (find (access_query u cid) cs); wf_world H.
Qed.

Lemma markMessagesSeen_wf (w : World) (meId : ObjectId) (ids : option (list ObjectId)) :
  wf w -> wf (snd (run (markMessagesSeen wall meId ids) w)).
Proof.
  intros H. destruct w as [cs ms us nid k].
  unfold markMessagesSeen. steps. destruct ids as [[|i r]|]; wf_world H.
Qed.

Lemma deleteMessageForMe_wf (w : World) (meId : ObjectId) (p : IdParam) :
  wf w -> wf (snd (run (deleteMessageForMe wall meId p) w)).
Proof.
  intros H. destruct w as [cs ms us nid k].
  unfold deleteMessageForMe. steps. destruct p; wf_world H.
Qed.

Lemma deleteMessageForEveryone_wf (w : World) (meId : ObjectId) (p : IdParam) :
  wf w -> wf (snd (run (deleteMessageForEveryone wall meId p) w)).
Proof.
  intros H. destruct w as [cs ms us nid k].
  unfold deleteMessageForEveryone. steps.
  destruct p as [| |mid]; try exact H.
  destruct (find _ ms) as [msg|]; [|exact H].
  destruct (negb _); [exact H|].
  destruct (find _ cs) as [conv|] eqn:Hc; [|wf_world H].
  destruct (lastMessage conv) as [lm|]; [|wf_world H].
  destruct (oid_eqb (messageId lm) mid); [|wf_world H].
  cbn [snd]. eapply wf_replace; [exact H | lia |].
  apply wf_conv_updatedAt, wf_conv_updatedAt, wf_conv_lastMessage.
  exact (wf_found _ _ _ H Hc).
Qed.

Lemma deleteConversationForUser_wf (w : World) (meId : ObjectId) (p : IdParam) :
  wf w -> wf (snd (run (deleteConversationForUser wall meId p) w)).
Proof.
  intros H. destruct w as [cs ms us nid k].
  unfold deleteConversationForUser. steps.
  destruct p as [| |cid]; try exact H.
  destruct (find _ cs) as [conv|] eqn:Hc; [|exact H].
  pose proof (wf_found _ _ _ H Hc) as Hw. cbn [snd].
  eapply wf_replace; [exact H | lia |].
  apply wf_conv_updatedAt, wf_conv_participants; auto.
  - now rewrite length_map.
  - apply lockstep_map. apply Hw.
Qed.

Lemma softDeleteConversation_wf (w : World) (u : option ObjectId) (p : IdParam) :
  wf w -> wf (snd (run (softDeleteConversation wall u p) w)).
Proof.
  intros H. destruct w as [cs ms us nid k].
  unfold softDeleteConversation. steps.
  destruct u as [a|]; [|exact H].
  destruct p as [| |cid]; try exact H.
  destruct (find _ cs) as [conv|] eqn:Hc; [|exact H].
  pose proof (wf_found _ _ _ H Hc) as Hw.
  destruct (find _ (participants conv)) as [pa|]; [|exact H].
  destruct (blocked pa); [exact H|].
  match goal with |- context [if ?b then _ else _] => destruct b end;
    [wf_world H|].
  cbn [snd]. eapply wf_replace; [exact H | lia |].
  apply wf_conv_updatedAt, wf_conv_participants; auto.
  - now rewrite update_first_length.
  - apply lockstep_update; [discriminate | apply Hw].
Qed.

Lemma handlePrivate_wf (w : World) (a : ObjectId) (p : IdParam) (i : option string) :
  wf w -> wf (snd (run (handlePrivateConversation wall a p i) w)).
Proof.
  intros H. destruct w as [cs ms us nid k].
  unfold handlePrivateConversation. steps.
  destruct p as [| |tid]; try exact H.
  destruct (isNonEmptyString i) as [s|]; [|exact H].
  destruct (oid_eqb tid a); [exact H|].
  destruct (find _ us) as [target|]; [|exact H].
  destruct (find _ cs) as [ex|] eqn:Hc.
  - pose proof (wf_found _ _ _ H Hc) as Hw.
    destruct (negb _); [exact H|].
    destruct (find _ (participants ex)) as [pa|]; [|exact H].
    destruct (find _ (participants ex)) as [pt|]; [|exact H].
    destruct (blocked pa || blocked pt); [exact H|].
    destruct (truthy (deletedAt pt)); [exact H|].
    destruct (truthy (deletedAt pa)); [|exact H].
    cbn [snd]. eapply wf_replace; [exact H | lia |].
    apply wf_conv_updatedAt, wf_conv_participants; auto.
    + now rewrite update_first_length.
    + apply lockstep_update; [tauto | apply Hw].
  - cbn [snd].
    eapply (wf_replace _ ms _ us (N.succ nid) _ (S (S k))).
    + apply (wf_append _ _ _ _ _ _ _ _ _ H);
        [reflexivity | lia | apply wf_conv_new_pair].
    + lia.
    + apply wf_conv_updatedAt, wf_conv_lastMessage, wf_conv_new_pair.
Qed.

Lemma handleGroup_wf (w : World) (a : ObjectId) (ids : option (list IdParam))
    (n ph m : option string) :
  wf w -> wf (snd (run (handleGroupConversation wall a ids n ph m) w)).
Proof.
  intros H. destruct w as [cs ms us nid k].
  unfold handleGroupConversation. steps.
  destruct (match ids with Some l => _ | None => None end) as [l|]; [|exact H].
  destruct (isNonEmptyString n) as [name|]; [|exact H].
  destruct (negb (_ =? _)%nat); [exact H|].
  destruct (existsb _ _); [exact H|].
  destruct (negb (_ =? _)%nat); [exact H|].
  destruct (isNonEmptyString m) as [gm|]; cbn [snd].
  - eapply (wf_replace _ ms _ us (N.succ nid) _ (S k)).
    + apply (wf_append _ _ _ _ _ _ _ _ _ H);
        [reflexivity | lia | apply wf_conv_new_group].
    + lia.
    + apply wf_conv_updatedAt, wf_conv_lastMessage, wf_conv_new_group.
  - apply (wf_append _ _ _ _ _ _ _ _ _ H);
      [reflexivity | lia | apply wf_conv_new_group].
Qed.

Lemma send_message_wf (w : World) (u : ObjectId) (p : IdParam) (t : option string)
    (atts : option (list Attachment)) :
  wf w -> wf (snd (run (send_message wall u p t atts) w)).
Proof.
  intros H. destruct w as [cs ms us nid k].
  unfold send_message. steps.
  destruct p as [| |cid]; try exact H.
  destruct (find _ cs) as [conv|] eqn:Hc; [|exact H].
  destruct (negb _); [exact H|].
  cbn [snd]. eapply wf_replace; [exact H | lia |].
  apply wf_conv_updatedAt, wf_conv_updatedAt, wf_conv_lastMessage.
  exact (wf_found _ _ _ H Hc).
Qed.

Lemma message_deleteForEveryone_wf (w : World) (u : ObjectId) (p : IdParam) :
  wf w -> wf (snd (run (message_deleteForEveryone wall u p) w)).
Proof.
  intros H. destruct w as [cs ms us nid k].
  unfold message_deleteForEveryone. steps.
  destruct p as [| |mid]; try exact H.
  destruct (find _ ms) as [msg|]; [|exact H].
  destruct (negb _); [exact H | wf_world H].
Qed.

Lemma chat_delete_wf (w : World) (u : ObjectId) (p : IdParam) :
  wf w -> wf (snd (run (chat_delete wall u p) w)).
Proof.
  intros H. destruct w as [cs ms us nid k].
  unfold chat_delete. steps.
  destruct p as [| |cid]; try exact H.
  cbn [snd]. eapply wf_update; [exact H | lia |].
  intros x Hx _. split; [reflexivity|].
  apply wf_conv_updatedAt, wf_conv_participants; auto.
  - now rewrite update_first_length.
  - apply lockstep_mark, Hx.
Qed.

(** Every request keeps the invariant, and so does every sequence of
    requests served from the empty database. *)
Lemma handle_wf (w : World) (r : Request) :
  wf w -> wf (snd (run (handle wall r) w)).
Proof.
  destruct r; cbn [handle].
  - apply getOrCreate_wf.
  - apply getMessages_wf.
  - apply markMessagesSeen_wf.
  - apply deleteMessageForMe_wf.
  - apply deleteMessageForEveryone_wf.
  - apply deleteConversationForUser_wf.
  - intros H. unfold createConversation.
    destruct user as [a|]; [|destruct w; exact H].
    destruct b as [t i|ids n ph m|]; [| |destruct w; exact H].
    + generalize (handlePrivate_wf w a t i H). destruct w. steps. exact (fun x => x).
    + generalize (handleGroup_wf w a ids n ph m H). destruct w. steps. exact (fun x => x).
  - apply softDeleteConversation_wf.
  - apply send_message_wf.
  - apply message_deleteForEveryone_wf.
  - apply chat_delete_wf.
Qed.

Lemma serve_wf (rs : list Request) (w : World) :
  wf w -> wf (serve wall rs w).
Proof.
  revert w. induction rs as [|r rs IH]; intros w H; cbn [serve]; [exact H|].
  apply IH, handle_wf, H.
Qed.

Corollary serve_from_empty_wf (rs : list Request) : wf (serve wall rs empty_world).
Proof. apply serve_wf, wf_empty. Qed.

(** What the invariant gives about the conversation the restore lookup
    finds. *)
Lemma wf_existing (w : World) (a t : ObjectId) (existing : Conversation)
    (pa : Participant) :
  wf w ->
  find (existing_query a t) (conversations w) = Some existing ->
  find (is_user a) (participants existing) = Some pa ->
  NoDup (map conv_id (conversations w))
  /\ List.length (participants existing) = 2%nat
  /\ (deletedAt pa = None -> hideMessagesBefore pa = None).
Proof.
  intros Hw He Hpa. pose proof (wf_found _ _ _ Hw He) as [Hlen Hlock].
  split; [apply Hw|]. split.
  - apply Hlen. apply find_some in He. destruct He as [_ He].
    unfold existing_query in He. apply andb_prop in He. destruct He as [He _].
    now destruct (type existing).
  - apply find_some in Hpa. rewrite Forall_forall in Hlock. now apply Hlock.
Qed.

End Proofs.

(** ** The properties on the sample data *)

(** C1, as stated, fails: the pair gets a conversation, one side deletes
    it for themselves, and the next call of the private create/get
    operation does not return the first conversation but creates a second
    one, so that two private conversations of the pair are stored. *)
Lemma private_pair_duplicated_after_soft_delete :
  exists c1 c2 w1 w3,
    run (getOrCreatePrivateConversation clock alice (ValidId bob)) empty_world
      = (Http 201 (JConversation c1), w1)
    /\ run (getOrCreatePrivateConversation clock alice (ValidId bob))
           (snd (run (deleteConversationForUser clock alice (ValidId (conv_id c1))) w1))
       = (Http 201 (JConversation c2), w3)
    /\ conv_id c2 <> conv_id c1
    /\ List.length (private_between alice bob w1) = 1%nat
    /\ List.length (private_between alice bob w3) = 2%nat.
Proof.
  do 4 eexists. split; [reflexivity|]. split; [reflexivity|].
  split; [discriminate|]. split; reflexivity.
Qed.

Lemma getOrCreate_twice_witness :
  let c := mkConversation 1 private [newParticipant alice; newParticipant bob]
                          None None None 1000 1000 in
  let w1 := mkWorld [c] [] [] 2%N 1 in
  run (getOrCreatePrivateConversation clock alice (ValidId bob)) empty_world
    = (Http 201 (JConversation c), w1)
  /\ run (getOrCreatePrivateConversation clock alice (ValidId bob)) w1
     = (Http 200 (JConversation c), w1).
Proof.
  split; [reflexivity|].
  apply (getOrCreate_twice_returns_first clock empty_world _ alice bob 201 _). reflexivity.
Defined.

(** C2, as stated, fails: the page served to Bob holds the message Alice
    deleted for everyone with its text and its attachment. *)
Lemma listing_serves_content_of_deleted_message :
  exists m,
    In m (page_items (fst (run (getMessagesByConversationId clock bob (ValidId 1%N)
                                  None None) retracted_world)))
    /\ isDeletedForEveryone m = true
    /\ text m = Some "secret"
    /\ attachments m = [mkAttachment image "https://cdn.example/p.png"].
Proof.
  eexists. split; [right; left; reflexivity|]. repeat split.
Qed.

Lemma listing_serves_deleted_rows_witness :
  let m := mkMessage 3 1 alice (Some "secret")
                     [mkAttachment image "https://cdn.example/p.png"]
                     true [] [] [] 1004 1007 in
  In m (page_items (fst (run (getMessagesByConversationId clock bob (ValidId 1%N)
                                None None) retracted_world)))
  /\ In m (messages retracted_world).
Proof.
  split; [right; left; reflexivity|].
  apply (proj2 (listing_serves_deleted_rows_as_stored clock retracted_world bob
                  (ValidId 1%N) None None (fun _ => false))).
  right; left; reflexivity.
Defined.

(** C3: on the same conversation, the REST operation sets [deletedAt] and
    [hideMessagesBefore] of the caller together, while the socket event
    [chat:delete] sets [deletedAt] and leaves [hideMessagesBefore] null. *)
Theorem chat_delete_leaves_watermark_unset :
  map participants
      (conversations (snd (run (deleteConversationForUser clock alice (ValidId 1%N))
                               hi_world)))
  = [[mkParticipant alice (Some 1004) (Some 1004) None None false; newParticipant bob]]
  /\ map participants
         (conversations (snd (run (chat_delete clock alice (ValidId 1%N)) hi_world)))
     = [[mkParticipant alice (Some 1004) None None None false; newParticipant bob]].
Proof. split; reflexivity. Qed.

(** C5: Alice hid the conversation at 1004, so that her watermark hides
    the message stamped 1002.  The first page respects it; a page asked
    with a cursor serves the hidden message. *)
Theorem listing_with_cursor_serves_hidden_message :
  option_map (hideBefore_of alice) (hd_error (conversations hidden_world)) = Some (Some 1004)
  /\ map createdAt
         (page_items (fst (run (getMessagesByConversationId clock alice (ValidId 1%N)
                                  None None) hidden_world)))
     = [1006]
  /\ map createdAt
         (page_items (fst (run (getMessagesByConversationId clock alice (ValidId 1%N)
                                  None (Some 5000)) hidden_world)))
     = [1002; 1006].
Proof. repeat split; reflexivity. Qed.

(** C7: creating a private conversation with its first message stores a
    [lastMessage.sentAt] read from the clock before the writes (1000),
    not the [createdAt] of the stored message (1002). *)
Theorem private_creation_sentAt_is_not_createdAt :
  map (fun c => option_map sentAt (lastMessage c)) (conversations hi_world) = [Some 1000]
  /\ map createdAt (messages hi_world) = [1002].
Proof. split; reflexivity. Qed.



(** Carol (9) is no participant of the conversation of Alice and Bob, and
    the id 99 names no message. *)
Lemma markMessagesSeen_unchecked_witness :
  [2%N; 99%N] <> []
  /\ fst (run (markMessagesSeen clock 9%N (Some [2%N; 99%N])) hi_world)
     = Http 200 (JMessage "Marked seen")
  /\ conversations (snd (run (markMessagesSeen clock 9%N (Some [2%N; 99%N])) hi_world))
     = conversations hi_world.
Proof.
  split; [discriminate|].
  destruct (markMessagesSeen_unchecked clock hi_world 9%N [2%N; 99%N]
              ltac:(discriminate)) as (Hr & Hc & _).
  split; [exact Hr | exact Hc].
Defined.

(** * Further properties *)

(** Case analysis on every test a handler makes. *)
Ltac branch :=
  repeat match goal with
         | |- context [match ?x with _ => _ end] =>
             lazymatch x with
             | context [match _ with _ => _ end] => fail
             | _ => lazymatch type of x with
                    | World => fail
                    | _ => destruct x eqn:?
                    end
             end
         end.

Section MoreProofs.

Variable wall : nat -> Date.

(** ** A refused request writes nothing *)


(** The per-id updates of [message:seen] always run to the end. *)
Lemma seen_each_returns (u : ObjectId) (ids : list ObjectId) (w : World) :
  fst (seen_each wall u ids w) = inl tt.
Proof.
  revert w. induction ids as [|i r IH]; intros w; [reflexivity|].
  cbn [seen_each]. unfold bind at 1. unfold update_one_message at 1. steps. apply IH.
Qed.



(** ** Stored documents only evolve *)

Lemma grows_refl {A} (R : A -> A -> Prop) (l : list A) :
  (forall x, R x x) -> grows R l l.
Proof.
  intros Hr. exists l, []. split; [now rewrite app_nil_r | now apply Forall2_refl].
Qed.

Lemma grows_append {A} (R : A -> A -> Prop) (l new : list A) :
  (forall x, R x x) -> grows R l (l ++ new).
Proof. intros Hr. exists l, new. split; [reflexivity | now apply Forall2_refl]. Qed.

Lemma grows_same_length {A} (R : A -> A -> Prop) (l l' : list A) :
  Forall2 R l l' -> grows R l l'.
Proof. intros H. exists l', []. split; [now rewrite app_nil_r | exact H]. Qed.

Lemma Forall2_trans {A} (R : A -> A -> Prop) (l1 l2 l3 : list A) :
  (forall x y z, R x y -> R y z -> R x z) ->
  Forall2 R l1 l2 -> Forall2 R l2 l3 -> Forall2 R l1 l3.
Proof.
  intros Ht H12. revert l3. induction H12 as [|x y l1 l2 Hxy H12 IH]; intros l3 H23.
  - inversion H23. constructor.
  - inversion H23 as [|? z ? l3' Hyz H23']; subst. constructor; eauto.
Qed.

Lemma grows_trans {A} (R : A -> A -> Prop) (l1 l2 l3 : list A) :
  (forall x y z, R x y -> R y z -> R x z) ->
  grows R l1 l2 -> grows R l2 l3 -> grows R l1 l3.
Proof.
  intros Ht (o1 & n1 & -> & H1) (o2 & n2 & -> & H2).
  apply Forall2_app_inv_l in H2. destruct H2 as (a & b & Ha & Hb & ->).
  exists a, (b ++ n2). split; [now rewrite app_assoc|].
  eapply Forall2_trans; eauto.
Qed.

Lemma msg_evolves_refl (m : Message) : msg_evolves m m.
Proof. repeat split; auto using incl_refl. Qed.

Lemma msg_evolves_trans (a b c : Message) :
  msg_evolves a b -> msg_evolves b c -> msg_evolves a c.
Proof.
  intros (A1 & A2 & A3 & A4 & A5 & A6 & A7 & A8 & A9 & A10)
         (B1 & B2 & B3 & B4 & B5 & B6 & B7 & B8 & B9 & B10).
  repeat split; try congruence; eauto using incl_tran.
Qed.

Lemma msg_evolves_stamp (t : Date) (m m' : Message) :
  msg_evolves m m' -> msg_evolves m (set_updatedAt t m').
Proof. intros H. exact H. Qed.

Lemma msg_evolves_flag (m : Message) :
  msg_evolves m (set_isDeletedForEveryone true m).
Proof. repeat split; auto using incl_refl. Qed.

Lemma msg_evolves_set_array (path : string) (f : list ObjectId -> list ObjectId)
    (m : Message) :
  (forall l, incl l (f l)) -> msg_evolves m (set_array path f m).
Proof.
  intros Hf. unfold set_array.
  destruct (String.eqb path "deletedFor"); [repeat split; auto using incl_refl|].
  destruct (String.eqb path "seenBy"); [repeat split; auto using incl_refl|].
  destruct (String.eqb path "deliveredTo"); [repeat split; auto using incl_refl|].
  apply msg_evolves_refl.
Qed.

Lemma msg_evolves_addToSet (path : string) (u : ObjectId) (m : Message) :
  msg_evolves m (addToSet path u m).
Proof.
  apply msg_evolves_set_array. intros l. destruct (mem u l); [apply incl_refl|].
  apply incl_appl, incl_refl.
Qed.

Lemma msg_evolves_push (path : string) (u : ObjectId) (m : Message) :
  msg_evolves m (push path u m).
Proof. apply msg_evolves_set_array. intros l. apply incl_appl, incl_refl. Qed.

Lemma grows_update_many (q : Message -> bool) (f : Message -> Message) (t : Date)
    (ms : list Message) :
  (forall m, msg_evolves m (f m)) ->
  grows msg_evolves ms (map (fun m => if q m then set_updatedAt t (f m) else m) ms).
Proof.
  intros Hf. apply grows_same_length, Forall2_map_r. intros m.
  destruct (q m); [apply msg_evolves_stamp, Hf | apply msg_evolves_refl].
Qed.

Lemma grows_update_one (q : Message -> bool) (f : Message -> Message) (t : Date)
    (ms : list Message) :
  (forall m, msg_evolves m (f m)) ->
  grows msg_evolves ms (update_first q (fun m => set_updatedAt t (f m)) ms).
Proof.
  intros Hf. apply grows_same_length, update_first_Forall2.
  - apply msg_evolves_refl.
  - intros m _. apply msg_evolves_stamp, Hf.
Qed.

Lemma grows_save_message (mid : ObjectId) (msg msg' : Message) (ms : list Message) :
  find (fun m => oid_eqb (msg_id m) mid) ms = Some msg ->
  msg_id msg' = msg_id msg -> msg_evolves msg msg' ->
  grows msg_evolves ms (replace_msg msg' ms).
Proof.
  intros Hf Hid He. apply grows_same_length. unfold replace_msg.
  assert (Hm : msg_id msg = mid) by (apply find_some in Hf; now apply oid_eqb_eq).
  rewrite Hid, Hm.
  now apply (update_first_find_Forall2 _ _ (fun _ => msg') ms msg msg_evolves_refl).
Qed.

Lemma seen_each_grows (u : ObjectId) (ids : list ObjectId) (w : World) :
  grows msg_evolves (messages w) (messages (snd (seen_each wall u ids w)))
  /\ conversations (snd (seen_each wall u ids w)) = conversations w
  /\ users (snd (seen_each wall u ids w)) = users w
  /\ next_oid (snd (seen_each wall u ids w)) = next_oid w.
Proof.
  revert w. induction ids as [|i r IH]; intros w.
  - cbn. repeat split. apply grows_refl, msg_evolves_refl.
  - cbn [seen_each]. unfold bind at 1 2 3 4. unfold update_one_message at 1 2 3 4.
    destruct w as [cs ms us nid k]. steps.
    match goal with |- context [seen_each wall u r ?w1] =>
      destruct (IH w1) as (H1 & H2 & H3 & H4); cbn [messages conversations users next_oid] in *
    end.
    repeat split; auto.
    eapply grows_trans; [apply msg_evolves_trans | | exact H1].
    apply grows_update_one. intros m. apply msg_evolves_addToSet.
Qed.

Lemma handle_messages_grow (r : Request) (w : World) :
  grows msg_evolves (messages w) (messages (snd (run (handle wall r) w))).
Proof.
  destruct w as [cs ms us nid k].
  destruct r; cbn [handle];
    unfold getOrCreatePrivateConversation, getMessagesByConversationId, markMessagesSeen,
      deleteMessageForMe, deleteMessageForEveryone, deleteConversationForUser,
      createConversation, handlePrivateConversation, handleGroupConversation,
      softDeleteConversation, send_message, message_deleteForEveryone, chat_delete;
    steps; branch; cbn [snd];
    first
      [ apply grows_refl, msg_evolves_refl
      | apply grows_append, msg_evolves_refl
      | apply grows_update_many; intros; first [apply msg_evolves_addToSet
                                               | apply msg_evolves_push]
      | apply grows_update_one; intros; apply msg_evolves_addToSet
      | eapply grows_save_message;
        [eassumption | reflexivity | apply msg_evolves_flag] ].
Qed.

Lemma participant_evolves_refl (p : Participant) : participant_evolves p p.
Proof. now destruct p. Qed.

Lemma participant_evolves_trans (a b c : Participant) :
  participant_evolves a b -> participant_evolves b c -> participant_evolves a c.
Proof.
  unfold participant_evolves. destruct a, b, c; cbn. intros [= -> -> -> ->] [= -> -> -> ->].
  reflexivity.
Qed.

Lemma conv_evolves_refl (c : Conversation) : conv_evolves c c.
Proof. split; [apply Forall2_refl, participant_evolves_refl | now destruct c]. Qed.

Lemma conv_evolves_trans (a b c : Conversation) :
  conv_evolves a b -> conv_evolves b c -> conv_evolves a c.
Proof.
  intros [P1 E1] [P2 E2]. split.
  - eapply Forall2_trans; eauto using participant_evolves_trans.
  - destruct a, b, c. cbn in *. injection E1 as -> -> -> -> ->.
    injection E2 as -> -> -> -> ->. reflexivity.
Qed.

Lemma participants_marked (q : Participant -> bool) (d h : option Date)
    (ps : list Participant) :
  Forall2 participant_evolves ps (update_first q (set_deleted d h) ps).
Proof.
  apply update_first_Forall2; [apply participant_evolves_refl | reflexivity].
Qed.

Lemma participants_stamped (q : Participant -> bool) (d : option Date)
    (ps : list Participant) :
  Forall2 participant_evolves ps (update_first q (set_deletedAt d) ps).
Proof.
  apply update_first_Forall2; [apply participant_evolves_refl | reflexivity].
Qed.

Lemma participants_mapped (a : ObjectId) (d h : option Date) (ps : list Participant) :
  Forall2 participant_evolves ps
          (map (fun p => if is_user a p then set_deleted d h p else p) ps).
Proof.
  apply Forall2_map_r. intros p. destruct (is_user a p);
    [reflexivity | apply participant_evolves_refl].
Qed.

Ltac conv_ev :=
  split;
  [ cbn [participants set_conv_updatedAt set_lastMessage set_participants];
    first [ apply participants_marked | apply participants_stamped
          | apply participants_mapped
          | apply Forall2_refl, participant_evolves_refl ]
  | reflexivity ].

Lemma grows_replace_found (cs : list Conversation) (q : Conversation -> bool)
    (c c' : Conversation) :
  NoDup (map conv_id cs) -> find q cs = Some c ->
  conv_id c' = conv_id c -> conv_evolves c c' ->
  grows conv_evolves cs (replace_conv c' cs).
Proof.
  intros Hnd Hf Hid He. apply grows_same_length. unfold replace_conv. rewrite Hid.
  apply find_some in Hf. destruct Hf as [Hin _].
  apply (update_first_find_Forall2 _ _ (fun _ => c') cs c conv_evolves_refl); auto.
  now apply find_by_id_unique.
Qed.

Lemma update_first_app_fresh {A} (q : A -> bool) (f : A -> A) (l1 l2 : list A) :
  find q l1 = None -> update_first q f (l1 ++ l2) = l1 ++ update_first q f l2.
Proof.
  induction l1 as [|x l1 IH]; cbn [find update_first app]; [reflexivity|].
  destruct (q x); [discriminate|]. intros H. now rewrite IH.
Qed.

Lemma find_fresh_id (cs : list Conversation) (n : ObjectId) :
  Forall (fun c => (conv_id c < n)%N) cs ->
  find (fun x => oid_eqb (conv_id x) n) cs = None.
Proof.
  induction 1 as [|x l Hx Hl IH]; cbn [find]; [reflexivity|].
  destruct (oid_eqb (conv_id x) n) eqn:He; [|exact IH].
  apply oid_eqb_eq in He. lia.
Qed.

Lemma grows_create_save (cs : list Conversation) (c c' : Conversation) (n : ObjectId) :
  Forall (fun x => (conv_id x < n)%N) cs ->
  conv_id c = n -> conv_id c' = n ->
  grows conv_evolves cs (replace_conv c' (cs ++ [c])).
Proof.
  intros Hf Hc Hc'. unfold replace_conv. rewrite Hc'.
  rewrite update_first_app_fresh by now apply find_fresh_id.
  apply grows_append, conv_evolves_refl.
Qed.

Lemma handle_conversations_grow (r : Request) (w : World) :
  wf w ->
  grows conv_evolves (conversations w) (conversations (snd (run (handle wall r) w))).
Proof.
  destruct w as [cs ms us nid k]. intros [Hnd Hfr _]. cbn [conversations next_oid] in *.
  destruct r; cbn [handle];
    unfold getOrCreatePrivateConversation, getMessagesByConversationId, markMessagesSeen,
      deleteMessageForMe, deleteMessageForEveryone, deleteConversationForUser,
      createConversation, handlePrivateConversation, handleGroupConversation,
      softDeleteConversation, send_message, message_deleteForEveryone, chat_delete;
    steps; branch; cbn [snd];
    first
      [ apply grows_refl, conv_evolves_refl
      | apply grows_append, conv_evolves_refl
      | eapply grows_replace_found; [exact Hnd | eassumption | reflexivity | conv_ev]
      | eapply grows_create_save; [exact Hfr | reflexivity | reflexivity]
      | apply grows_same_length, update_first_Forall2;
        [apply conv_evolves_refl | intros; conv_ev] ].
Qed.

Lemma wf_same (w w' : World) :
  conversations w' = conversations w -> next_oid w' = next_oid w -> wf w -> wf w'.
Proof.
  intros Hc Hn [H1 H2 H3]. split; rewrite ?Hc, ?Hn; assumption.
Qed.

Lemma handle_event_wf (e : Event) (w : World) :
  wf w -> wf (snd (run (handle_event wall e) w)).
Proof.
  destruct e as [r|u ids|u m]; cbn [handle_event].
  - apply handle_wf.
  - intros H. destruct ids as [[|i r]|]; try exact H.
    unfold message_seen, run, bind.
    pose proof (seen_each_returns u (i :: r) w) as Hr.
    pose proof (seen_each_grows u (i :: r) w) as (_ & Hc & _ & Hn).
    destruct (seen_each wall u (i :: r) w) as [[[]|x] w']; cbn in *; [|discriminate].
    now apply (wf_same w).
  - intros H. destruct w as [cs ms us nid k]. unfold message_deleteForMe. steps.
    destruct m; try exact H. cbn [snd]. apply (wf_keep _ _ _ _ _ _ _ _ H). lia.
Qed.

Lemma handle_event_messages_grow (e : Event) (w : World) :
  grows msg_evolves (messages w) (messages (snd (run (handle_event wall e) w))).
Proof.
  destruct e as [r|u ids|u m]; cbn [handle_event].
  - apply handle_messages_grow.
  - destruct ids as [[|i r]|]; try apply grows_refl, msg_evolves_refl.
    unfold message_seen, run, bind.
    pose proof (seen_each_returns u (i :: r) w) as Hr.
    pose proof (seen_each_grows u (i :: r) w) as (Hg & _).
    destruct (seen_each wall u (i :: r) w) as [[[]|x] w']; cbn in *; [exact Hg|discriminate].
  - destruct w as [cs ms us nid k]. unfold message_deleteForMe. steps.
    destruct m; cbn [snd]; try apply grows_refl, msg_evolves_refl.
    apply grows_update_one. intros x. apply msg_evolves_addToSet.
Qed.

Lemma handle_event_conversations_grow (e : Event) (w : World) :
  wf w ->
  grows conv_evolves (conversations w)
        (conversations (snd (run (handle_event wall e) w))).
Proof.
  destruct e as [r|u ids|u m]; cbn [handle_event].
  - apply handle_conversations_grow.
  - intros _. destruct ids as [[|i r]|]; try apply grows_refl, conv_evolves_refl.
    unfold message_seen, run, bind.
    pose proof (seen_each_returns u (i :: r) w) as Hr.
    pose proof (seen_each_grows u (i :: r) w) as (_ & Hc & _).
    destruct (seen_each wall u (i :: r) w) as [[[]|x] w']; cbn in *; [|discriminate].
    rewrite Hc. apply grows_refl, conv_evolves_refl.
  - intros _. destruct w as [cs ms us nid k]. unfold message_deleteForMe. steps.
    destruct m; cbn [snd]; apply grows_refl, conv_evolves_refl.
Qed.

(** X2: whatever requests are served, a stored message is never removed
    or reordered, and keeps its id, conversation, sender, text,
    attachments and creation time; its deleted-for-everyone flag is never
    reset, and nobody is ever removed from its [deletedFor], [seenBy] or
    [deliveredTo] arrays.  New messages come after the stored ones. *)
Theorem messages_only_evolve (es : list Event) (w : World) :
  grows msg_evolves (messages w) (messages (serve_events wall es w)).
Proof.
  revert w. induction es as [|e es IH]; intros w; cbn [serve_events].
  - apply grows_refl, msg_evolves_refl.
  - eapply grows_trans; [apply msg_evolves_trans | apply handle_event_messages_grow | apply IH].
Qed.

Lemma serve_events_wf (es : list Event) (w : World) :
  wf w -> wf (serve_events wall es w).
Proof.
  revert w. induction es as [|e es IH]; intros w H; cbn [serve_events]; [exact H|].
  apply IH, handle_event_wf, H.
Qed.

(** X3: from a state with unique conversation ids below the id generator,
    whatever requests are served, a stored conversation is never removed
    or reordered, and keeps its id, type, creation time, group name and
    photo; its participant list keeps its length and order, and a
    participant record keeps its user, [archivedAt], [mutedUntil] and
    [blocked]: only [deletedAt] and [hideMessagesBefore] of a participant
    and [lastMessage] and [updatedAt] of the conversation are ever
    written. *)
Theorem conversations_only_evolve (es : list Event) (w : World) :
  wf w ->
  grows conv_evolves (conversations w) (conversations (serve_events wall es w)).
Proof.
  revert w. induction es as [|e es IH]; intros w H; cbn [serve_events].
  - apply grows_refl, conv_evolves_refl.
  - eapply grows_trans; [apply conv_evolves_trans | |].
    + now apply handle_event_conversations_grow.
    + apply IH. now apply handle_event_wf.
Qed.

(** X4: the invariant of the conversation collection is kept by every
    sequence of requests: conversation ids stay unique, every private
    conversation has exactly two participant records, and a participant's
    [hideMessagesBefore] is set only while their [deletedAt] is set. *)
Theorem conversation_invariant_kept (es : list Event) (w : World) (c : Conversation) :
  wf w ->
  In c (conversations (serve_events wall es w)) ->
  NoDup (map conv_id (conversations (serve_events wall es w)))
  /\ (type c = private -> List.length (participants c) = 2%nat)
  /\ (forall p, In p (participants c) ->
                deletedAt p = None -> hideMessagesBefore p = None).
Proof.
  intros Hw Hin. destruct (serve_events_wf es w Hw) as [H1 _ H3].
  rewrite Forall_forall in H3. destruct (H3 c Hin) as [Hlen Hlock].
  split; [exact H1|]. split; [exact Hlen|].
  intros p Hp. rewrite Forall_forall in Hlock. now apply Hlock.
Qed.

(** ** Fields no request writes *)

Section ParticipantInvariant.

Variable P : Participant -> Prop.
Hypothesis P_new : forall u, P (newParticipant u).
Hypothesis P_set : forall d h p, P p -> P (set_deleted d h p).

Let Q (c : Conversation) : Prop := Forall P (participants c).

Lemma Q_found (q : Conversation -> bool) (cs : list Conversation) (c : Conversation) :
  Forall Q cs -> find q cs = Some c -> Forall P (participants c).
Proof.
  intros H Hf. apply find_some in Hf. rewrite Forall_forall in H. now apply H.
Qed.

Lemma Q_replace (cs : list Conversation) (c' : Conversation) :
  Forall Q cs -> Q c' -> Forall Q (replace_conv c' cs).
Proof. intros H Hc. apply Forall_update_first; auto. Qed.

Lemma Q_append (cs : list Conversation) (c : Conversation) :
  Forall Q cs -> Q c -> Forall Q (cs ++ [c]).
Proof. intros H Hc. apply Forall_app. split; [exact H | now repeat constructor]. Qed.

Lemma P_marked (q : Participant -> bool) (d h : option Date) (ps : list Participant) :
  Forall P ps -> Forall P (update_first q (set_deleted d h) ps).
Proof. intros H. apply Forall_update_first; auto. Qed.

Lemma P_stamped (q : Participant -> bool) (d : option Date) (ps : list Participant) :
  Forall P ps -> Forall P (update_first q (set_deletedAt d) ps).
Proof. intros H. apply Forall_update_first; auto. intros x Hx _. now apply P_set. Qed.

Lemma P_mapped (a : ObjectId) (d h : option Date) (ps : list Participant) :
  Forall P ps ->
  Forall P (map (fun p => if is_user a p then set_deleted d h p else p) ps).
Proof.
  intros H. apply Forall_map. eapply Forall_impl; [|exact H].
  intros p Hp. destruct (is_user a p); auto.
Qed.

Lemma P_pair (a b : ObjectId) : Forall P [newParticipant a; newParticipant b].
Proof. repeat constructor; apply P_new. Qed.

Lemma P_group (a : ObjectId) (ids : list ObjectId) :
  Forall P (newParticipant a :: map newParticipant ids).
Proof.
  constructor; [apply P_new|]. apply Forall_map, Forall_forall. intros; apply P_new.
Qed.

Ltac q_conv H :=
  unfold Q; cbn [participants set_conv_updatedAt set_lastMessage set_participants];
  first
    [ apply P_pair | apply P_group
    | apply P_marked; eapply Q_found; [exact H | eassumption]
    | apply P_mapped; eapply Q_found; [exact H | eassumption]
    | eapply Q_found; [exact H | eassumption] ].

Lemma handle_keeps_participants (r : Request) (w : World) :
  Forall Q (conversations w) ->
  Forall Q (conversations (snd (run (handle wall r) w))).
Proof.
  destruct w as [cs ms us nid k]. cbn [conversations]. intros H.
  destruct r; cbn [handle];
    unfold getOrCreatePrivateConversation, getMessagesByConversationId, markMessagesSeen,
      deleteMessageForMe, deleteMessageForEveryone, deleteConversationForUser,
      createConversation, handlePrivateConversation, handleGroupConversation,
      softDeleteConversation, send_message, message_deleteForEveryone, chat_delete;
    steps; branch; cbn [snd];
    first
      [ exact H
      | apply Q_append; [exact H | q_conv H]
      | apply Q_replace; [exact H | q_conv H]
      | apply Q_replace; [apply Q_append; [exact H | q_conv H] | q_conv H]
      | apply Forall_update_first; [exact H|];
        intros c Hc _; unfold Q;
        cbn [participants set_conv_updatedAt set_lastMessage set_participants];
        apply P_stamped, Hc ].
Qed.

Lemma serve_events_keep_participants (es : list Event) (w : World) :
  Forall Q (conversations w) ->
  Forall Q (conversations (serve_events wall es w)).
Proof.
  revert w. induction es as [|e es IH]; intros w H; cbn [serve_events]; [exact H|].
  apply IH. destruct e as [r|u ids|u m]; cbn [handle_event].
  - now apply handle_keeps_participants.
  - destruct ids as [[|i r]|]; try exact H.
    unfold message_seen, run, bind.
    pose proof (seen_each_returns u (i :: r) w) as Hr.
    pose proof (seen_each_grows u (i :: r) w) as (_ & Hc & _).
    destruct (seen_each wall u (i :: r) w) as [[[]|x] w']; cbn in *; [|discriminate].
    now rewrite Hc.
  - destruct w as [cs ms us nid k]. unfold message_deleteForMe. steps.
    destruct m; exact H.
Qed.

End ParticipantInvariant.

(** X5: no request ever blocks, archives or mutes: if no participant
    record has [blocked], [archivedAt] or [mutedUntil] set, then after
    any sequence of requests none has, in old and new conversations
    alike. *)
Theorem never_blocked_archived_muted (es : list Event) (w : World) :
  Forall (fun c => Forall (fun p => blocked p = false /\ archivedAt p = None
                                    /\ mutedUntil p = None) (participants c))
         (conversations w) ->
  Forall (fun c => Forall (fun p => blocked p = false /\ archivedAt p = None
                                    /\ mutedUntil p = None) (participants c))
         (conversations (serve_events wall es w)).
Proof.
  apply (serve_events_keep_participants
           (fun p => blocked p = false /\ archivedAt p = None /\ mutedUntil p = None)).
  - intros u. now repeat split.
  - intros d h p Hp. exact Hp.
Qed.

(** ** Seen and deleted-for arrays *)

Lemma mem_In (u : ObjectId) (l : list ObjectId) : mem u l = true <-> In u l.
Proof.
  unfold mem. rewrite existsb_exists. split.
  - intros (x & Hx & He). apply oid_eqb_eq in He. now subst.
  - intros H. exists u. split; [exact H | apply oid_eqb_refl].
Qed.

Lemma mem_snoc (u : ObjectId) (l : list ObjectId) : mem u (l ++ [u]) = true.
Proof. apply mem_In, in_or_app. right. now left. Qed.

Lemma NoDup_snoc (u : ObjectId) (l : list ObjectId) :
  NoDup l -> mem u l = false -> NoDup (l ++ [u]).
Proof.
  intros Hl Hu. apply NoDup_app; auto.
  - repeat constructor. intros [].
  - intros x Hx [<-|[]]. apply mem_In in Hx. congruence.
Qed.

Lemma seen_filter_holds (ids : list ObjectId) (u : ObjectId) (m : Message) :
  matches [("_id", In_ ids); ("seenBy", Ne u)] m
  = mem (msg_id m) ids && negb (mem u (seenBy m)).
Proof.
  unfold matches. cbn [forallb fst snd field String.eqb Ascii.eqb Bool.eqb cond_holds].
  now rewrite andb_true_r.
Qed.

(** X6: marking messages seen is idempotent: a second call with the same
    ids by the same user changes no message at all (the [$push] is guarded
    by [seenBy: { $ne: user }]). *)
Theorem markMessagesSeen_idempotent (w : World) (meId : ObjectId)
    (ids : option (list ObjectId)) :
  messages (snd (run (markMessagesSeen wall meId ids)
                     (snd (run (markMessagesSeen wall meId ids) w))))
  = messages (snd (run (markMessagesSeen wall meId ids) w)).
Proof.
  destruct w as [cs ms us nid k]. destruct ids as [[|i r]|]; try reflexivity.
  unfold markMessagesSeen. steps. cbn [snd]. rewrite map_map.
  apply map_ext. intros m.
  destruct (matches [("_id", In_ (i :: r)); ("seenBy", Ne meId)] m) eqn:Hq.
  - rewrite seen_filter_holds.
    replace (mem meId (seenBy (set_updatedAt (wall k) (push "seenBy" meId m)))) with true
      by (symmetry; apply mem_snoc).
    now rewrite andb_false_r.
  - now rewrite Hq.
Qed.

Lemma arrays_nodup_addToSet (path : string) (u : ObjectId) (m : Message) :
  arrays_nodup m -> arrays_nodup (addToSet path u m).
Proof.
  intros (H1 & H2 & H3). unfold addToSet, set_array, arrays_nodup.
  destruct (String.eqb path "deletedFor");
    [cbn; destruct (mem u (deletedFor m)) eqn:E; auto using NoDup_snoc|].
  destruct (String.eqb path "seenBy");
    [cbn; destruct (mem u (seenBy m)) eqn:E; auto using NoDup_snoc|].
  destruct (String.eqb path "deliveredTo");
    [cbn; destruct (mem u (deliveredTo m)) eqn:E; auto using NoDup_snoc|].
  auto.
Qed.

Lemma arrays_nodup_seen (ids : list ObjectId) (u : ObjectId) (t : Date) (m : Message) :
  arrays_nodup m ->
  arrays_nodup (if matches [("_id", In_ ids); ("seenBy", Ne u)] m
                then set_updatedAt t (push "seenBy" u m) else m).
Proof.
  intros H. rewrite seen_filter_holds.
  destruct (mem (msg_id m) ids); cbn [andb]; [|exact H].
  destruct (mem u (seenBy m)) eqn:E; cbn [negb]; [exact H|].
  destruct H as (H1 & H2 & H3). repeat split; auto. cbn. now apply NoDup_snoc.
Qed.

Lemma arrays_nodup_found (q : Message -> bool) (ms : list Message) (m : Message) :
  Forall arrays_nodup ms -> find q ms = Some m -> arrays_nodup m.
Proof.
  intros H Hf. apply find_some in Hf. rewrite Forall_forall in H. now apply H.
Qed.

Lemma arrays_nodup_stamp (t : Date) (m : Message) :
  arrays_nodup m -> arrays_nodup (set_updatedAt t m).
Proof. intros H. exact H. Qed.

Lemma arrays_nodup_flag (b : bool) (m : Message) :
  arrays_nodup m -> arrays_nodup (set_isDeletedForEveryone b m).
Proof. intros H. exact H. Qed.

Lemma seen_each_nodup (u : ObjectId) (ids : list ObjectId) (w : World) :
  Forall arrays_nodup (messages w) ->
  Forall arrays_nodup (messages (snd (seen_each wall u ids w))).
Proof.
  revert w. induction ids as [|i r IH]; intros w H; [exact H|].
  cbn [seen_each]. unfold bind at 1. unfold update_one_message at 1.
  destruct w as [cs ms us nid k]. steps. apply IH. cbn [messages] in *.
  apply Forall_update_first; [exact H|].
  intros m Hm _. apply arrays_nodup_stamp. now apply (arrays_nodup_addToSet "seenBy").
Qed.

Lemma handle_arrays_nodup (r : Request) (w : World) :
  Forall arrays_nodup (messages w) ->
  Forall arrays_nodup (messages (snd (run (handle wall r) w))).
Proof.
  destruct w as [cs ms us nid k]. cbn [messages]. intros H.
  destruct r; cbn [handle];
    unfold getOrCreatePrivateConversation, getMessagesByConversationId, markMessagesSeen,
      deleteMessageForMe, deleteMessageForEveryone, deleteConversationForUser,
      createConversation, handlePrivateConversation, handleGroupConversation,
      softDeleteConversation, send_message, message_deleteForEveryone, chat_delete;
    steps; branch; cbn [snd];
    first
      [ exact H
      | apply Forall_app; split; [exact H | repeat constructor]
      | apply Forall_map; eapply Forall_impl; [|exact H]; intros m Hm;
        first [ now apply arrays_nodup_seen
              | destruct (matches _ m);
                [apply arrays_nodup_stamp; now apply (arrays_nodup_addToSet "readBy")
                | exact Hm] ]
      | unfold replace_msg; apply Forall_update_first; [exact H|]; intros x Hx _;
        first [ apply arrays_nodup_stamp; now apply (arrays_nodup_addToSet "deletedFor")
              | apply arrays_nodup_stamp, arrays_nodup_flag;
                eapply arrays_nodup_found; [exact H | eassumption] ] ].
Qed.

(** X7: no request ever puts a user twice into the [seenBy],
    [deletedFor] or [deliveredTo] array of a message: if the arrays of the
    stored messages are duplicate-free, they are after any sequence of
    requests, and the arrays of new messages are empty. *)
Theorem user_arrays_stay_duplicate_free (es : list Event) (w : World) :
  Forall arrays_nodup (messages w) ->
  Forall arrays_nodup (messages (serve_events wall es w)).
Proof.
  revert w. induction es as [|e es IH]; intros w H; cbn [serve_events]; [exact H|].
  apply IH. destruct e as [r|u ids|u m]; cbn [handle_event].
  - now apply handle_arrays_nodup.
  - destruct ids as [[|i r]|]; try exact H.
    unfold message_seen, run, bind.
    pose proof (seen_each_returns u (i :: r) w) as Hr.
    pose proof (seen_each_nodup u (i :: r) w H) as Hn.
    destruct (seen_each wall u (i :: r) w) as [[[]|x] w']; cbn in *; [exact Hn|discriminate].
  - destruct w as [cs ms us nid k]. unfold message_deleteForMe. steps.
    destruct m; try exact H. cbn [snd messages] in *.
    apply Forall_update_first; [exact H|].
    intros x Hx _. apply arrays_nodup_stamp. now apply (arrays_nodup_addToSet "deletedFor").
Qed.

(** ** The shape of a message page *)

Lemma page_limit_bounds (q : option nat) : (1 <= page_limit q 30 <= 100)%nat.
Proof. unfold page_limit. destruct q as [[|n]|]; lia. Qed.







Lemma access_query_id (u cid : ObjectId) (c : Conversation) :
  access_query u cid c = true -> conv_id c = cid.
Proof.
  unfold access_query. intros H. apply andb_prop in H. destruct H as [H _].
  apply andb_prop in H. destruct H as [H _]. now apply oid_eqb_eq.
Qed.


(** X9: a first page (no cursor) that reports no more messages is
    complete: it holds every stored message of the conversation that is
    not deleted for the viewer and is newer than the viewer's watermark,
    when one is set. *)
Theorem listing_first_page_complete (w : World) (u cid : ObjectId) (c : Conversation)
    (limitQ : option nat) (m : Message) :
  find (access_query u cid) (conversations w) = Some c ->
  page_hasMore (fst (run (getMessagesByConversationId wall u (ValidId cid) limitQ None) w))
    = false ->
  In m (messages w) ->
  conversationId m = cid ->
  mem u (deletedFor m) = false ->
  (forall h, hideBefore_of u c = Some h -> h < createdAt m) ->
  In m (page_items (fst (run (getMessagesByConversationId wall u (ValidId cid)
                                limitQ None) w))).
Proof.
  intros Hc Hmore Hm Hcid Hdel Hhide.
  rewrite listing_items, Hc. unfold page_of.
  revert Hmore. unfold getMessagesByConversationId. steps. destruct w as [cs ms us nid k].
  steps. cbn [conversations messages] in *. rewrite Hc. cbn [fst page_hasMore].
  set (l := sort_desc (filter _ ms)). intros Hmore.
  assert (Hl : In m l).
  { subst l. apply sort_desc_in, filter_In. split; [exact Hm|].
    pose proof (find_some _ _ Hc) as [_ Hq]. apply access_query_id in Hq.
    unfold listing_filter. destruct (hideBefore_of u c) as [h|] eqn:Hh; cbn.
    - rewrite Hcid, Hq, oid_eqb_refl, Hdel. cbn.
      rewrite andb_true_r. apply Z.ltb_lt. now apply Hhide.
    - now rewrite Hcid, Hq, oid_eqb_refl, Hdel. }
  apply in_rev. rewrite rev_involutive.
  apply Nat.ltb_ge in Hmore. rewrite length_firstn in Hmore.
  rewrite firstn_all2 by lia. exact Hl.
Qed.

(** ** Whose request changes what *)

Lemma acted_refl (a : option ObjectId) (m : Message) : msg_acted_by a m m.
Proof. repeat split; auto. Qed.

Lemma acted_stamp (a : option ObjectId) (t : Date) (m m' : Message) :
  msg_acted_by a m m' -> msg_acted_by a m (set_updatedAt t m').
Proof. intros H. exact H. Qed.

Lemma acted_readBy (a : option ObjectId) (u : ObjectId) (m : Message) :
  msg_acted_by a m (addToSet "readBy" u m).
Proof. apply acted_refl. Qed.

Lemma In_snoc (u x : ObjectId) (l : list ObjectId) :
  In x (l ++ [u]) -> In x l \/ Some u = Some x.
Proof.
  intros H. apply in_app_or in H. destruct H as [H|[->|[]]]; auto.
Qed.

Lemma acted_seenBy_push (u : ObjectId) (m : Message) :
  msg_acted_by (Some u) m (push "seenBy" u m).
Proof. repeat split; auto. cbn. intros x. apply In_snoc. Qed.

Lemma acted_seenBy_add (u : ObjectId) (m : Message) :
  msg_acted_by (Some u) m (addToSet "seenBy" u m).
Proof.
  repeat split; auto. cbn. intros x. destruct (mem u (seenBy m)); [auto | apply In_snoc].
Qed.

Lemma acted_deletedFor_add (u : ObjectId) (m : Message) :
  msg_acted_by (Some u) m (addToSet "deletedFor" u m).
Proof.
  repeat split; auto. cbn. intros x. destruct (mem u (deletedFor m)); [auto | apply In_snoc].
Qed.

Lemma acted_flag (u : ObjectId) (m : Message) :
  negb (oid_eqb (senderId m) u) = false ->
  msg_acted_by (Some u) m (set_isDeletedForEveryone true m).
Proof.
  intros H. apply negb_false_iff, oid_eqb_eq in H. repeat split; auto.
  right. now rewrite H.
Qed.

Lemma acted_save (a : option ObjectId) (mid : ObjectId) (msg msg' : Message)
    (ms : list Message) :
  find (fun m => oid_eqb (msg_id m) mid) ms = Some msg ->
  msg_id msg' = msg_id msg -> msg_acted_by a msg msg' ->
  grows (msg_acted_by a) ms (replace_msg msg' ms).
Proof.
  intros Hf Hid He. apply grows_same_length. unfold replace_msg.
  assert (Hm : msg_id msg = mid) by (apply find_some in Hf; now apply oid_eqb_eq).
  rewrite Hid, Hm.
  now apply (update_first_find_Forall2 _ _ (fun _ => msg') ms msg (acted_refl a)).
Qed.

Lemma handle_messages_acted (r : Request) (w : World) :
  grows (msg_acted_by (actor (Served r))) (messages w)
        (messages (snd (run (handle wall r) w))).
Proof.
  destruct w as [cs ms us nid k].
  destruct r; cbn [handle actor];
    unfold getOrCreatePrivateConversation, getMessagesByConversationId, markMessagesSeen,
      deleteMessageForMe, deleteMessageForEveryone, deleteConversationForUser,
      createConversation, handlePrivateConversation, handleGroupConversation,
      softDeleteConversation, send_message, message_deleteForEveryone, chat_delete;
    steps; branch; cbn [snd];
    first
      [ apply grows_refl, acted_refl
      | apply grows_append, acted_refl
      | apply grows_same_length, Forall2_map_r; intros x;
        match goal with |- context [if ?b then _ else _] => destruct b end;
        first [ apply acted_refl
              | apply acted_stamp; first [apply acted_readBy | apply acted_seenBy_push] ]
      | apply grows_same_length, update_first_Forall2;
        [apply acted_refl | intros x _; apply acted_stamp, acted_deletedFor_add]
      | eapply acted_save;
        [eassumption | reflexivity | apply acted_stamp, acted_flag; assumption] ].
Qed.

(** The two relations together compose along a sequence of updates. *)
Lemma evolves_acted_trans (a : option ObjectId) (x y z : Message) :
  msg_evolves x y /\ msg_acted_by a x y ->
  msg_evolves y z /\ msg_acted_by a y z ->
  msg_evolves x z /\ msg_acted_by a x z.
Proof.
  intros [E1 (S1 & D1 & L1 & F1)] [E2 (S2 & D2 & L2 & F2)].
  split; [eapply msg_evolves_trans; eauto|].
  destruct E1 as (_ & _ & Hs & _).
  repeat split.
  - intros u Hu. destruct (S2 u Hu) as [H|H]; auto.
  - intros u Hu. destruct (D2 u Hu) as [H|H]; auto.
  - congruence.
  - destruct F2 as [F2|F2]; [destruct F1 as [F1|F1]; [left; congruence | now right]|].
    right. now rewrite <- Hs.
Qed.

Lemma seen_each_acted (u : ObjectId) (ids : list ObjectId) (w : World) :
  grows (fun m m' => msg_evolves m m' /\ msg_acted_by (Some u) m m')
        (messages w) (messages (snd (seen_each wall u ids w))).
Proof.
  revert w. induction ids as [|i r IH]; intros w.
  - apply grows_refl. intros m. split; [apply msg_evolves_refl | apply acted_refl].
  - cbn [seen_each]. unfold bind at 1. unfold update_one_message at 1.
    destruct w as [cs ms us nid k]. steps.
    eapply grows_trans; [apply evolves_acted_trans | | apply IH].
    cbn [messages]. apply grows_same_length, update_first_Forall2.
    + intros m. split; [apply msg_evolves_refl | apply acted_refl].
    + intros m _. split; [apply msg_evolves_stamp, msg_evolves_addToSet
                         | apply acted_stamp, acted_seenBy_add].
Qed.

Lemma grows_weaken {A} (R R' : A -> A -> Prop) (l l' : list A) :
  (forall x y, R x y -> R' x y) -> grows R l l' -> grows R' l l'.
Proof.
  intros Hr (o & n & -> & H). exists o, n. split; [reflexivity|].
  eapply Forall2_impl; eauto.
Qed.

(** X10: a request changes stored messages only on behalf of its own
    user: nobody but the requesting user is added to a [seenBy] or
    [deletedFor] array, [deliveredTo] is never written, and a message
    becomes deleted for everyone only by a request of its sender. *)
Theorem messages_change_for_requester_only (e : Event) (w : World) :
  grows (msg_acted_by (actor e)) (messages w)
        (messages (snd (run (handle_event wall e) w))).
Proof.
  destruct e as [r|u ids|u m]; cbn [handle_event].
  - apply handle_messages_acted.
  - cbn [actor]. destruct ids as [[|i r]|]; try apply grows_refl, acted_refl.
    unfold message_seen, run, bind.
    pose proof (seen_each_returns u (i :: r) w) as Hr.
    pose proof (seen_each_acted u (i :: r) w) as Hg.
    destruct (seen_each wall u (i :: r) w) as [[[]|x] w']; cbn in *; [|discriminate].
    eapply grows_weaken; [|exact Hg]. now intros x y [_ H].
  - cbn [actor]. destruct w as [cs ms us nid k]. unfold message_deleteForMe. steps.
    destruct m; cbn [snd]; try apply grows_refl, acted_refl.
    apply grows_same_length, update_first_Forall2;
      [apply acted_refl | intros x _; apply acted_stamp, acted_deletedFor_add].
Qed.

Lemma conv_acted_refl (a : option ObjectId) (c : Conversation) : conv_acted_by a c c.
Proof. apply Forall2_refl. now left. Qed.

Lemma own_marked (a : ObjectId) (d h : option Date) (ps : list Participant) :
  Forall2 (fun p p' => p' = p \/ Some a = Some (userId p)) ps
          (update_first (is_user a) (set_deleted d h) ps).
Proof.
  apply update_first_Forall2; [now left|].
  intros p Hp. right. apply oid_eqb_eq in Hp. now rewrite Hp.
Qed.

Lemma own_stamped (a : ObjectId) (d : option Date) (ps : list Participant) :
  Forall2 (fun p p' => p' = p \/ Some a = Some (userId p)) ps
          (update_first (is_user a) (set_deletedAt d) ps).
Proof.
  apply update_first_Forall2; [now left|].
  intros p Hp. right. apply oid_eqb_eq in Hp. now rewrite Hp.
Qed.

Lemma own_mapped (a : ObjectId) (d h : option Date) (ps : list Participant) :
  Forall2 (fun p p' => p' = p \/ Some a = Some (userId p)) ps
          (map (fun p => if is_user a p then set_deleted d h p else p) ps).
Proof.
  apply Forall2_map_r. intros p. destruct (is_user a p) eqn:Hp; [|now left].
  right. apply oid_eqb_eq in Hp. now rewrite Hp.
Qed.

Ltac conv_own :=
  unfold conv_acted_by;
  cbn [participants set_conv_updatedAt set_lastMessage set_participants];
  first [ apply own_marked | apply own_stamped | apply own_mapped
        | apply Forall2_refl; now left ].

Lemma acted_replace_found (a : option ObjectId) (cs : list Conversation)
    (q : Conversation -> bool) (c c' : Conversation) :
  NoDup (map conv_id cs) -> find q cs = Some c ->
  conv_id c' = conv_id c -> conv_acted_by a c c' ->
  grows (conv_acted_by a) cs (replace_conv c' cs).
Proof.
  intros Hnd Hf Hid He. apply grows_same_length. unfold replace_conv. rewrite Hid.
  apply find_some in Hf. destruct Hf as [Hin _].
  apply (update_first_find_Forall2 _ _ (fun _ => c') cs c (conv_acted_refl a)); auto.
  now apply find_by_id_unique.
Qed.

Lemma acted_create_save (a : option ObjectId) (cs : list Conversation)
    (c c' : Conversation) (n : ObjectId) :
  Forall (fun x => (conv_id x < n)%N) cs ->
  conv_id c = n -> conv_id c' = n ->
  grows (conv_acted_by a) cs (replace_conv c' (cs ++ [c])).
Proof.
  intros Hf Hc Hc'. unfold replace_conv. rewrite Hc'.
  rewrite update_first_app_fresh by now apply find_fresh_id.
  apply grows_append, conv_acted_refl.
Qed.

(** X11: a request changes participant records only on behalf of its own
    user: from a state with unique conversation ids, every participant
    record of another user is left as it was by every request, in every
    stored conversation. *)
Theorem participants_change_for_requester_only (e : Event) (w : World) :
  wf w ->
  grows (conv_acted_by (actor e)) (conversations w)
        (conversations (snd (run (handle_event wall e) w))).
Proof.
  destruct e as [r|u ids|u m]; cbn [handle_event].
  - destruct w as [cs ms us nid k]. intros [Hnd Hfr _]. cbn [conversations next_oid] in *.
    destruct r; cbn [handle actor];
      unfold getOrCreatePrivateConversation, getMessagesByConversationId,
        markMessagesSeen, deleteMessageForMe, deleteMessageForEveryone,
        deleteConversationForUser, createConversation, handlePrivateConversation,
        handleGroupConversation, softDeleteConversation, send_message,
        message_deleteForEveryone, chat_delete;
      steps; branch; cbn [snd];
      first
        [ apply grows_refl, conv_acted_refl
        | apply grows_append, conv_acted_refl
        | eapply acted_replace_found; [exact Hnd | eassumption | reflexivity | conv_own]
        | eapply acted_create_save; [exact Hfr | reflexivity | reflexivity]
        | apply grows_same_length, update_first_Forall2;
          [apply conv_acted_refl | intros; conv_own] ].
  - intros _. destruct ids as [[|i r]|]; try apply grows_refl, conv_acted_refl.
    unfold message_seen, run, bind.
    pose proof (seen_each_returns u (i :: r) w) as Hr.
    pose proof (seen_each_grows u (i :: r) w) as (_ & Hc & _).
    destruct (seen_each wall u (i :: r) w) as [[[]|x] w']; cbn in *; [|discriminate].
    rewrite Hc. apply grows_refl, conv_acted_refl.
  - intros _. destruct w as [cs ms us nid k]. unfold message_deleteForMe. steps.
    destruct m; cbn [snd]; apply grows_refl, conv_acted_refl.
Qed.

(** ** Hiding a conversation *)

(** X12: hiding a conversation through [softDeleteConversation] is
    idempotent: after a call that hid it, a second call by the same user
    answers 200 "already deleted" and writes nothing, so the watermark
    stays where the first call put it. *)
Theorem softDelete_twice_keeps_watermark (w : World) (a cid : ObjectId) (s : string)
    (t : Date) :
  fst (run (softDeleteConversation wall (Some a) (ValidId cid)) w)
    = Http 200 (JHidden s cid t) ->
  let w1 := snd (run (softDeleteConversation wall (Some a) (ValidId cid)) w) in
  let (r2, w2) := run (softDeleteConversation wall (Some a) (ValidId cid)) w1 in
  r2 = Http 200 (JMessage "Conversation already deleted for this user.")
  /\ conversations w2 = conversations w1
  /\ messages w2 = messages w1.
Proof.
  destruct w as [cs ms us nid k].
  unfold softDeleteConversation. steps.
  destruct (find (fun c => oid_eqb (conv_id c) cid) cs) as [conv|] eqn:Hc;
    [|discriminate].
  destruct (find (is_user a) (participants conv)) as [pa|] eqn:Hpa; [|discriminate].
  destruct (blocked pa) eqn:Hb; [discriminate|].
  match goal with |- context [if ?b then _ else _] => destruct b end; [discriminate|].
  cbn [fst snd]. intros _.
  unfold replace_conv. cbn [conv_id set_conv_updatedAt set_participants].
  rewrite (find_by_id _ _ _ Hc).
  rewrite (find_update_first _ (fun _ => _) cs conv Hc)
    by (cbn [conv_id set_conv_updatedAt set_participants];
        rewrite (find_by_id _ _ _ Hc); apply oid_eqb_refl).
  steps. cbn [participants set_conv_updatedAt set_participants].
  rewrite (find_update_first _ _ _ pa Hpa)
    by (apply find_some in Hpa; exact (proj2 Hpa)).
  cbn [blocked set_deleted deletedAt hideMessagesBefore]. rewrite Hb, Z.eqb_refl.
  now repeat split.
Qed.

Lemma insert_updated_desc_in (c x : Conversation) (l : list Conversation) :
  In x (insert_updated_desc c l) <-> x = c \/ In x l.
Proof.
  induction l as [|y l IH]; simpl; [intuition congruence|].
  destruct (conv_updatedAt y <? conv_updatedAt c); simpl; rewrite ?IH; intuition congruence.
Qed.

Lemma sort_updated_desc_in (x : Conversation) (l : list Conversation) :
  In x (sort_updated_desc l) <-> In x l.
Proof.
  induction l as [|y l IH]; simpl; [tauto|].
  rewrite insert_updated_desc_in, IH. intuition congruence.
Qed.

Lemma NoDup_map_eq {A B} (f : A -> B) (l : list A) (x y : A) :
  NoDup (map f l) -> In x l -> In y l -> f x = f y -> x = y.
Proof.
  induction l as [|a l IH]; cbn [map In]; [tauto|].
  intros Hnd Hx Hy He. inversion_clear Hnd as [|? ? Ha Hl].
  destruct Hx as [->|Hx], Hy as [->|Hy]; auto.
  - exfalso. apply Ha. rewrite He. now apply in_map.
  - exfalso. apply Ha. rewrite <- He. now apply in_map.
Qed.

Lemma hidden_after_mark (a : ObjectId) (t : Date) (ps : list Participant) :
  existsb (fun p => is_user a p && is_null (deletedAt p))
          (map (fun p => if is_user a p then set_deleted (Some t) (Some t) p else p) ps)
  = false.
Proof.
  induction ps as [|p ps IH]; [reflexivity|]. cbn [map existsb]. rewrite IH, orb_false_r.
  destruct (is_user a p) eqn:Hp; [|now rewrite Hp].
  unfold is_user in *. cbn. now rewrite Hp.
Qed.

Lemma others_after_mark (a b : ObjectId) (t : Date) (ps : list Participant) :
  b <> a ->
  existsb (fun p => is_user b p && is_null (deletedAt p))
          (map (fun p => if is_user a p then set_deleted (Some t) (Some t) p else p) ps)
  = existsb (fun p => is_user b p && is_null (deletedAt p)) ps.
Proof.
  intros Hne. induction ps as [|p ps IH]; [reflexivity|]. cbn [map existsb]. rewrite IH.
  f_equal. destruct (is_user a p) eqn:Hp; [|reflexivity].
  unfold is_user in *. apply oid_eqb_eq in Hp. cbn. rewrite Hp.
  apply oid_eqb_neq in Hne. rewrite N.eqb_sym in Hne. unfold oid_eqb in *.
  now rewrite Hne.
Qed.

Lemma visible_ids_same (b : ObjectId) (l l1 : list Conversation) :
  Forall2 (fun c c1 => conv_id c1 = conv_id c /\ visible_to b c1 = visible_to b c) l l1 ->
  map conv_id (filter (visible_to b) l1) = map conv_id (filter (visible_to b) l).
Proof.
  induction 1 as [|c c1 l l1 [Hid Hv] _ IH]; [reflexivity|].
  cbn [filter]. rewrite Hv. destruct (visible_to b c); cbn [map]; congruence.
Qed.

(** X13: after [deleteConversationForUser] by user [a], the conversation
    list of [a] no longer shows the conversation, and the conversation
    list of any other user shows the same conversations as before. *)
Theorem delete_hides_conversation_for_caller_only
    (w : World) (a b cid : ObjectId) (la lb lb0 : list Conversation) :
  wf w -> b <> a ->
  let w1 := snd (run (deleteConversationForUser wall a (ValidId cid)) w) in
  fst (getConversations a w1) = inl la ->
  fst (getConversations b w1) = inl lb ->
  fst (getConversations b w) = inl lb0 ->
  (forall c, In c la -> conv_id c <> cid)
  /\ (forall i, In i (map conv_id lb) <-> In i (map conv_id lb0)).
Proof.
  destruct w as [cs ms us nid k]. intros [Hnd _ _] Hne. cbn [conversations] in Hnd.
  unfold deleteConversationForUser, getConversations. steps.
  destruct (find (fun c => oid_eqb (conv_id c) cid) cs) as [conv|] eqn:Hc;
    cbn [fst snd]; intros [= <-] [= <-] [= <-].
  - set (conv' := set_conv_updatedAt _ _).
    assert (Hid : conv_id conv' = cid) by (cbn; now apply find_by_id in Hc).
    unfold replace_conv. rewrite Hid.
    assert (HF : Forall2 (fun c c1 => conv_id c1 = conv_id c
                                      /\ visible_to b c1 = visible_to b c)
                   cs (update_first (fun x => oid_eqb (conv_id x) cid) (fun _ => conv') cs)).
    { apply (update_first_find_Forall2 _ _ (fun _ => conv') cs conv); auto.
      split; [rewrite Hid; symmetry; now apply find_by_id in Hc|].
      unfold visible_to, elemMatch. cbn [participants conv' set_conv_updatedAt
        set_participants]. now apply others_after_mark. }
    split.
    + intros c Hin He. apply sort_updated_desc_in, filter_In in Hin.
      destruct Hin as [Hin Hv].
      assert (Hids : map conv_id (update_first (fun x => oid_eqb (conv_id x) cid)
                                    (fun _ => conv') cs) = map conv_id cs).
      { clear -HF. induction HF as [|x y l l' [H _] _ IH]; cbn [map]; congruence. }
      assert (Hc' : In conv' (update_first (fun x => oid_eqb (conv_id x) cid)
                                (fun _ => conv') cs))
        by apply (In_update_first _ (fun _ => conv') cs conv Hc).
      assert (c = conv').
      { apply (NoDup_map_eq conv_id _ c conv' (eq_ind_r (@NoDup _) Hnd Hids) Hin Hc').
        congruence. }
      subst c. unfold visible_to, elemMatch in Hv.
      cbn [participants conv' set_conv_updatedAt set_participants] in Hv.
      now rewrite hidden_after_mark in Hv.
    + pose proof (visible_ids_same b _ _ HF) as Hv.
      assert (Hs : forall i l, In i (map conv_id (sort_updated_desc l))
                               <-> In i (map conv_id l)).
      { intros i l. rewrite !in_map_iff. split; intros (c & He & Hin); exists c;
          (split; [exact He | now apply sort_updated_desc_in]). }
      intros i. rewrite !Hs. now rewrite Hv.
  - split; [|tauto].
    intros c Hin He. apply sort_updated_desc_in, filter_In in Hin. destruct Hin as [Hin _].
    apply (find_none _ _ Hc) in Hin. cbn in Hin. rewrite He, oid_eqb_refl in Hin.
    discriminate.
Qed.

(** ** Creating a group *)

Lemma filter_length_full {A} (p : A -> bool) (l : list A) :
  List.length (filter p l) = List.length l -> filter p l = l.
Proof.
  induction l as [|x l IH]; cbn [filter]; [reflexivity|].
  destruct (p x); cbn [List.length].
  - intros [= H]. now rewrite IH.
  - intros H. pose proof (filter_length_le p l). lia.
Qed.

Lemma length_dedup_le (l : list ObjectId) : (List.length (dedup l) <= List.length l)%nat.
Proof.
  induction l as [|x l IH]; cbn [dedup List.length]; [lia|].
  pose proof (filter_length_le (fun y => negb (oid_eqb y x)) (dedup l)). lia.
Qed.

Lemma dedup_full (l : list ObjectId) :
  List.length (dedup l) = List.length l -> dedup l = l /\ NoDup l.
Proof.
  induction l as [|x l IH]; cbn [dedup List.length]; [intros _; split; [reflexivity|constructor]|].
  intros [= H].
  pose proof (filter_length_le (fun y => negb (oid_eqb y x)) (dedup l)) as H1.
  pose proof (length_dedup_le l) as H2.
  destruct IH as [Hd Hn]; [lia|].
  assert (Hf : filter (fun y => negb (oid_eqb y x)) (dedup l) = dedup l)
    by (apply filter_length_full; lia).
  rewrite Hf, Hd. split; [reflexivity|]. constructor; [|exact Hn].
  intros Hin. rewrite <- Hd, <- Hf in Hin. apply filter_In in Hin.
  destruct Hin as [_ Hin]. now rewrite oid_eqb_refl in Hin.
Qed.

Lemma valid_ids_cons (p : IdParam) (l : list IdParam) :
  valid_ids (p :: l)
  = match p with ValidId i => i :: valid_ids l | _ => valid_ids l end.
Proof. now destruct p. Qed.

Lemma length_valid_ids_le (l : list IdParam) :
  (List.length (valid_ids l) <= List.length l)%nat.
Proof.
  induction l as [|p l IH]; [reflexivity|].
  rewrite valid_ids_cons. destruct p; cbn [List.length]; lia.
Qed.

Lemma valid_ids_full (l : list IdParam) :
  List.length (valid_ids l) = List.length l -> l = map ValidId (valid_ids l).
Proof.
  induction l as [|p l IH]; [reflexivity|].
  rewrite valid_ids_cons. pose proof (length_valid_ids_le l) as Hle.
  destruct p; cbn [List.length map]; try lia.
  intros [= H]. now rewrite <- IH.
Qed.

Lemma found_users_distinct (keep : User -> bool) (us : list User) :
  NoDup (map user_id us) -> NoDup (map user_id (filter keep us)).
Proof.
  intros Hnd. induction us as [|u us IH]; [exact Hnd|].
  cbn [map filter] in *. inversion_clear Hnd as [|? ? Hu Hus].
  destruct (keep u); cbn [map]; [|auto]. constructor; [|auto].
  intros Hin. apply Hu. apply in_map_iff in Hin. destruct Hin as (y & He & Hy).
  apply filter_In in Hy. rewrite <- He. apply in_map. tauto.
Qed.

(** X14: a group is created (status 201) only from a list of at least two
    valid, pairwise distinct ids of existing users other than the creator;
    the new conversation then has type group, the trimmed name, and one
    fresh participant record for the creator followed by one for each
    listed user, in the order of the list. *)
Theorem group_creation_shape
    (w : World) (a : ObjectId) (ids : option (list IdParam))
    (name photo message : option string) (s : string) (c : Conversation) :
  NoDup (map user_id (users w)) ->
  fst (run (handleGroupConversation wall a ids name photo message) w)
    = Http 201 (JMessageConversation s c) ->
  exists members n,
    ids = Some (map ValidId members)
    /\ (2 <= List.length members)%nat
    /\ NoDup (a :: members)
    /\ (forall i, In i members -> In i (map user_id (users w)))
    /\ isNonEmptyString name = Some n
    /\ type c = group
    /\ groupName c = Some (trim n)
    /\ participants c = newParticipant a :: map newParticipant members.
Proof.
  destruct w as [cs ms us nid k]. cbn [users]. intros Hus.
  unfold handleGroupConversation. steps.
  destruct ids as [l|]; [|discriminate].
  destruct (Nat.ltb_spec (List.length l) 2) as [Hlt|Hlen]; [discriminate|].
  destruct (isNonEmptyString name) as [n|]; [|discriminate].
  destruct (Nat.eqb_spec (List.length (dedup (valid_ids l))) (List.length l))
    as [Hl|Hl]; cbn [negb]; [|discriminate].
  destruct (existsb _ _) eqn:Hself; [discriminate|].
  destruct (Nat.eqb_spec
              (List.length (filter (fun u => mem (user_id u) (dedup (valid_ids l))) us))
              (List.length (dedup (valid_ids l)))) as [Hu|Hu]; cbn [negb]; [|discriminate].
  pose proof (length_dedup_le (valid_ids l)) as H1.
  pose proof (length_valid_ids_le l) as H2.
  destruct (dedup_full (valid_ids l)) as [Hd Hn]; [lia|].
  rewrite Hd in *.
  assert (Hv : l = map ValidId (valid_ids l)) by (apply valid_ids_full; lia).
  intros Hr. exists (valid_ids l), n.
  split; [congruence|]. split; [lia|]. split.
  { constructor; [|exact Hn]. intros Hin.
    assert (existsb (fun i => oid_eqb i a) (valid_ids l) = true).
    { apply existsb_exists. exists a. split; [exact Hin | apply oid_eqb_refl]. }
    congruence. }
  split.
  { set (found := filter (fun u => mem (user_id u) (valid_ids l)) us) in *.
    assert (Hi : incl (valid_ids l) (map user_id found)).
    { apply NoDup_length_incl.
      - now apply found_users_distinct.
      - rewrite length_map. lia.
      - intros i Hi. apply in_map_iff in Hi. destruct Hi as (u & <- & Hu').
        apply filter_In in Hu'. now apply mem_In. }
    intros i Hi'. apply Hi in Hi'. apply in_map_iff in Hi'.
    destruct Hi' as (u & <- & Hu'). apply filter_In in Hu'. apply in_map. tauto. }
  split; [reflexivity|].
  destruct (isNonEmptyString message) as [gm|]; cbn [fst] in Hr;
    injection Hr as _ <-; now repeat split.
Qed.

(** ** Message ids *)


Lemma map_update_first_matched {A B} (g : A -> B) (q : A -> bool) (f : A -> A)
    (l : list A) :
  (forall x, q x = true -> g (f x) = g x) -> map g (update_first q f l) = map g l.
Proof.
  intros Hf. induction l as [|x l IH]; cbn [update_first map]; [reflexivity|].
  destruct (q x) eqn:Hq; cbn [map]; [now rewrite Hf | now rewrite IH].
Qed.


Lemma msg_id_set_array (path : string) (f : list ObjectId -> list ObjectId) (m : Message) :
  msg_id (set_array path f m) = msg_id m.
Proof.
  unfold set_array. now destruct (String.eqb path "deletedFor"),
    (String.eqb path "seenBy"), (String.eqb path "deliveredTo").
Qed.







(** With unique ids, updating the first match is updating every match. *)
Lemma update_first_unique {A} (key : A -> ObjectId) (i : ObjectId) (q : A -> bool)
    (f : A -> A) (l : list A) :
  NoDup (map key l) ->
  (forall x, q x = true -> key x = i) ->
  update_first q f l = map (fun x => if q x then f x else x) l.
Proof.
  intros Hnd Hq. induction l as [|x l IH]; cbn [update_first map]; [reflexivity|].
  inversion_clear Hnd as [|? ? Hx Hl].
  destruct (q x) eqn:Hqx; [|now rewrite IH].
  f_equal. rewrite <- (map_id l) at 1. apply map_ext_in. intros y Hy.
  destruct (q y) eqn:Hqy; [|reflexivity].
  exfalso. apply Hx. rewrite (Hq x Hqx), <- (Hq y Hqy). now apply in_map.
Qed.





(** ** Deleting a message for oneself *)

Lemma deletedFor_filter_other (cid u v : ObjectId) (h b : option Date) (t : Date)
    (m : Message) :
  v <> u ->
  matches (listing_filter cid v h b) (set_updatedAt t (addToSet "deletedFor" u m))
  = matches (listing_filter cid v h b) m.
Proof.
  intros Hne.
  assert (Hm : mem v (deletedFor (set_updatedAt t (addToSet "deletedFor" u m)))
               = mem v (deletedFor m)).
  { cbn. destruct (mem u (deletedFor m)); [reflexivity|].
    unfold mem. rewrite existsb_app. cbn. apply oid_eqb_neq in Hne.
    now rewrite Hne, !orb_false_r. }
  destruct h, b; cbn in *; now rewrite Hm.
Qed.

Lemma deletedFor_addToSet (u : ObjectId) (t : Date) (m : Message) :
  deletedFor (set_updatedAt t (addToSet "deletedFor" u m))
  = if mem u (deletedFor m) then deletedFor m else deletedFor m ++ [u].
Proof. cbn. now destruct (mem u (deletedFor m)). Qed.

Lemma deleted_not_listed (u mid cid : ObjectId) (t : Date) (h b : option Date)
    (ms : list Message) (x : Message) :
  In x (map (fun y => if matches [("_id", Eq mid)] y
                      then set_updatedAt t (addToSet "deletedFor" u y) else y) ms) ->
  matches (listing_filter cid u h b) x = true ->
  msg_id x <> mid.
Proof.
  intros Hin Hm He. apply listing_filter_base in Hm. destruct Hm as [_ Hm].
  apply in_map_iff in Hin. destruct Hin as (y & <- & _).
  destruct (matches [("_id", Eq mid)] y) eqn:Hq.
  - rewrite deletedFor_addToSet in Hm.
    destruct (mem u (deletedFor y)) eqn:Hd; [congruence|].
    rewrite mem_snoc in Hm. discriminate.
  - unfold matches in Hq. cbn in Hq. rewrite andb_true_r in Hq.
    apply oid_eqb_neq in Hq. contradiction.
Qed.

(** X16: after a user deletes a message for themselves, no page served to
    that user holds the message, while the pages served to any other user
    hold the same messages in the same order as before (message ids being
    unique). *)
Theorem deleteForMe_hides_for_caller_only
    (w : World) (u v mid : ObjectId) (p : IdParam) (limitQ : option nat)
    (before : option Date) :
  NoDup (map msg_id (messages w)) ->
  v <> u ->
  let w1 := snd (run (deleteMessageForMe wall u (ValidId mid)) w) in
  (forall x, In x (page_items (fst (run (getMessagesByConversationId wall u p limitQ
                                           before) w1))) ->
             msg_id x <> mid)
  /\ map msg_id (page_items (fst (run (getMessagesByConversationId wall v p limitQ
                                         before) w1)))
     = map msg_id (page_items (fst (run (getMessagesByConversationId wall v p limitQ
                                           before) w))).
Proof.
  intros Hnd Hne. destruct w as [cs ms us nid k]. cbn [messages] in Hnd.
  assert (Hw1 : snd (run (deleteMessageForMe wall u (ValidId mid)) (mkWorld cs ms us nid k))
                = mkWorld cs (update_first (matches [("_id", Eq mid)])
                                (fun m => set_updatedAt (wall k)
                                            (addToSet "deletedFor" u m)) ms)
                          us nid (S k)) by reflexivity.
  cbv zeta. rewrite Hw1. clear Hw1.
  rewrite (update_first_unique msg_id mid); auto;
    [|intros x Hx; unfold matches in Hx; cbn in Hx; rewrite andb_true_r in Hx;
      now apply oid_eqb_eq in Hx].
  set (g := fun x => if matches [("_id", Eq mid)] x
                     then set_updatedAt (wall k) (addToSet "deletedFor" u x) else x).
  destruct p as [| |cid]; try (split; [cbn; tauto | reflexivity]).
  rewrite !listing_items. cbn [conversations messages]. split.
  - destruct (find (access_query u cid) cs) as [c|]; [|cbn; tauto].
    intros x Hx. apply page_of_matches in Hx. destruct Hx as [Hin Hm].
    cbn [messages] in Hin. subst g. eapply deleted_not_listed; eauto.
  - destruct (find (access_query v cid) cs) as [c|]; [|reflexivity].
    unfold page_of. cbn [messages].
    rewrite filter_map_same.
    + rewrite sort_desc_map by (intros x; subst g; cbn beta; destruct (matches _ x);
                                 [cbn; unfold addToSet, set_array; now cbn | reflexivity]).
      rewrite firstn_map, <- map_rev, map_map. apply map_ext. intros x. subst g. cbn beta.
      destruct (matches _ x); [cbn [msg_id set_updatedAt]; apply msg_id_set_array
                              | reflexivity].
    + intros x. subst g. cbn beta. destruct (matches [("_id", Eq mid)] x); [|reflexivity].
      now apply deletedFor_filter_other.
Qed.

(** ** The conversation list *)





(** ** Hiding and restoring a private conversation *)

Lemma find_update_first_same {A} (q q' : A -> bool) (f : A -> A) (l : list A) (x : A) :
  find q l = Some x -> find q' l = Some x -> q (f x) = true ->
  find q (update_first q' f l) = Some (f x).
Proof.
  induction l as [|y l IH]; cbn [find update_first]; [discriminate|].
  destruct (q' y) eqn:Hq'.
  - intros _ [= ->] Hf. cbn [find]. now rewrite Hf.
  - destruct (q y) eqn:Hq.
    + intros [= ->] H'. apply find_some in H'. destruct H' as [_ H']. congruence.
    + intros H H' Hf. cbn [find]. rewrite Hq. auto.
Qed.

Lemma is_user_marked (a b : ObjectId) (d h : option Date) (ps : list Participant) :
  existsb (is_user b)
          (map (fun p => if is_user a p then set_deleted d h p else p) ps)
  = existsb (is_user b) ps.
Proof.
  induction ps as [|p ps IH]; [reflexivity|]. cbn [map existsb]. rewrite IH. f_equal.
  now destruct (is_user a p).
Qed.

Lemma existing_query_marked (a t : ObjectId) (d : Date) (x : Date) (c : Conversation) :
  existing_query a t
    (set_conv_updatedAt x
       (set_participants
          (map (fun p => if is_user a p then set_deleted (Some d) (Some d) p else p)
               (participants c)) c))
  = existing_query a t c.
Proof.
  unfold existing_query. cbn [type participants set_conv_updatedAt set_participants].
  now rewrite !is_user_marked.
Qed.

(** X19: hiding a private conversation and coming back is a round trip:
    from a state with unique ids, when user [a] deletes for themselves the
    private conversation with [t] that the lookup finds (two participant
    records, nobody blocked, [t] has not hidden it) and then asks to
    start a private conversation with [t] again, the answer is 200 and the
    stored conversation has its participant records as before the
    deletion, with [deletedAt] and [hideMessagesBefore] of [a] null. *)
Theorem delete_then_restore_round_trip
    (w : World) (a t : ObjectId) (initial : option string) (target : User)
    (conv : Conversation) (pa pt : Participant) :
  NoDup (map conv_id (conversations w)) ->
  isNonEmptyString initial <> None ->
  t <> a ->
  find (fun u => oid_eqb (user_id u) t) (users w) = Some target ->
  find (existing_query a t) (conversations w) = Some conv ->
  participants conv = [pa; pt] \/ participants conv = [pt; pa] ->
  userId pa = a -> userId pt = t ->
  blocked pa = false -> blocked pt = false -> deletedAt pt = None ->
  let w1 := snd (run (deleteConversationForUser wall a (ValidId (conv_id conv))) w) in
  let (r, w2) := run (handlePrivateConversation wall a (ValidId t) initial) w1 in
  exists c',
    r = Http 200 (JMessageConversation "Private conversation restored." c')
    /\ find (existing_query a t) (conversations w2) = Some c'
    /\ conv_id c' = conv_id conv
    /\ participants c'
       = map (fun p => if is_user a p then set_deleted None None p else p)
             (participants conv)
    /\ messages w2 = messages w.
Proof.
  destruct w as [cs ms us nid k]. cbn [conversations users messages].
  intros Hnd Hi Hne Hu Hc Hps Ha Ht Hba Hbt Hdt.
  assert (Hin : In conv cs) by (now apply find_some in Hc).
  pose proof (find_by_id_unique cs conv Hnd Hin) as Hid.
  assert (Hw1 : snd (run (deleteConversationForUser wall a (ValidId (conv_id conv)))
                         (mkWorld cs ms us nid k))
                = mkWorld
                    (update_first (fun x => oid_eqb (conv_id x) (conv_id conv))
                       (fun _ => set_conv_updatedAt (wall (S k))
                                   (set_participants
                                      (map (fun p => if is_user a p
                                                     then set_deleted (Some (wall k))
                                                                      (Some (wall k)) p
                                                     else p) (participants conv)) conv))
                       cs)
                    ms us nid (S (S k))).
  { unfold deleteConversationForUser. steps. now rewrite Hid. }
  cbv zeta. rewrite Hw1. clear Hw1.
  set (conv1 := set_conv_updatedAt (wall (S k)) _).
  assert (Hc1 : find (existing_query a t)
                  (update_first (fun x => oid_eqb (conv_id x) (conv_id conv))
                                (fun _ => conv1) cs) = Some conv1).
  { apply (find_update_first_same _ _ (fun _ => conv1) cs conv Hc Hid).
    subst conv1. rewrite existing_query_marked. now apply find_some in Hc. }
  assert (Hua : is_user a pa = true) by (unfold is_user; rewrite Ha; apply oid_eqb_refl).
  assert (Hut : is_user t pt = true) by (unfold is_user; rewrite Ht; apply oid_eqb_refl).
  assert (Hat : is_user a pt = false).
  { unfold is_user. rewrite Ht. now apply oid_eqb_neq. }
  assert (Hta : is_user t pa = false).
  { unfold is_user. rewrite Ha. apply oid_eqb_neq. congruence. }
  assert (Hnd1 : NoDup (map conv_id (update_first
                                       (fun x => oid_eqb (conv_id x) (conv_id conv))
                                       (fun _ => conv1) cs))).
  { rewrite map_update_first_matched; [exact Hnd|].
    intros x Hx. apply oid_eqb_eq in Hx. now subst conv1. }
  assert (Hin1 : In conv1 (update_first (fun x => oid_eqb (conv_id x) (conv_id conv))
                                        (fun _ => conv1) cs))
    by apply (In_update_first _ (fun _ => conv1) cs conv Hid).
  pose proof (find_by_id_unique _ conv1 Hnd1 Hin1) as Hid1.
  set (pa1 := set_deleted (Some (wall k)) (Some (wall k)) pa).
  assert (Hfacts : List.length (participants conv1) = 2%nat
                   /\ find (is_user a) (participants conv1) = Some pa1
                   /\ find (is_user t) (participants conv1) = Some pt
                   /\ update_first (is_user a) (set_deleted None None)
                                   (participants conv1)
                      = map (fun p => if is_user a p then set_deleted None None p else p)
                            (participants conv)).
  { subst conv1. cbn [participants set_conv_updatedAt set_participants].
    assert (Hua1 : is_user a pa1 = true) by exact Hua.
    assert (Hta1 : is_user t pa1 = false) by exact Hta.
    destruct Hps as [Hps|Hps]; rewrite Hps; cbn [map]; rewrite ?Hua, ?Hat;
      fold pa1; cbn [List.length find update_first];
      rewrite ?Hua1, ?Hta1, ?Hat, ?Hut; cbn [find update_first];
      rewrite ?Hua1, ?Hta1, ?Hat, ?Hut;
      (repeat split; subst pa1; now destruct pa). }
  destruct Hfacts as (Hlen & Hfa & Hft & Hup).
  unfold handlePrivateConversation. steps.
  destruct (isNonEmptyString initial) as [s|]; [clear Hi | congruence].
  apply oid_eqb_neq in Hne. rewrite Hne, Hu, Hc1, Hlen.
  assert (Htid : user_id target = t) by (apply find_some in Hu; now apply oid_eqb_eq).
  rewrite Htid, Hfa, Hft.
  change (blocked pa1) with (blocked pa). rewrite Hba, Hbt, Hdt.
  cbn [Nat.eqb negb orb truthy is_null deletedAt pa1 set_deleted].
  eexists. split; [reflexivity|].
  unfold replace_conv. cbn [conv_id set_conv_updatedAt set_participants].
  split; [|split; [reflexivity | split; [exact Hup | reflexivity]]].
  apply (find_update_first_same _ _ (fun _ => _) _ _ Hc1); [exact Hid1|].
  rewrite Hup. apply find_some in Hc. destruct Hc as [_ Hc].
  unfold existing_query in *. cbn [type participants set_conv_updatedAt set_participants].
  now rewrite !is_user_marked.
Qed.
(** ** Only participants post *)


Lemma Forall2_In_l {A} (R : A -> A -> Prop) (l l' : list A) (x : A) :
  Forall2 R l l' -> In x l -> exists y, In y l' /\ R x y.
Proof.
  induction 1 as [|a b l l' Hab Hl IH]; cbn; [tauto|].
  intros [<-|Hin]; [eauto|]. destruct (IH Hin) as (y & Hy & Hr). eauto.
Qed.














(** ** [lastMessage] names a stored message *)

Lemma last_stored_grows (ms ms' : list Message) (c : Conversation) :
  grows msg_evolves ms ms' -> last_stored ms c -> last_stored ms' c.
Proof.
  intros (old & new & -> & Ho) H l Hl. destruct (H l Hl) as (m & Hin & Hid & Hc).
  destruct (Forall2_In_l _ _ _ _ Ho Hin) as (m' & Hin' & (E1 & E2 & _)).
  exists m'. split; [apply in_or_app; now left|]. now rewrite E1, E2.
Qed.

Lemma last_kept_refl (cs : list Conversation) (ms' : list Message) :
  Forall (last_kept_or_stored cs ms') cs.
Proof. apply Forall_forall. intros c Hc. left. eauto. Qed.

Lemma last_kept_update_first (cs : list Conversation) (ms' : list Message)
    (q : Conversation -> bool) (f : Conversation -> Conversation) :
  (forall c, lastMessage (f c) = lastMessage c /\ conv_id (f c) = conv_id c) ->
  Forall (last_kept_or_stored cs ms') (update_first q f cs).
Proof.
  intros Hf.
  assert (H : forall l, incl l cs -> Forall (last_kept_or_stored cs ms') (update_first q f l)).
  { induction l as [|x l IH]; intros Hi; cbn [update_first]; [constructor|].
    assert (Hx : In x cs) by (apply Hi; now left).
    assert (Hl : incl l cs) by (intros y Hy; apply Hi; now right).
    destruct (q x).
    - constructor.
      + left. exists x. destruct (Hf x). auto.
      + apply Forall_forall. intros y Hy. left. exists y. auto.
    - constructor; [left; eauto | auto]. }
  apply H, incl_refl.
Qed.

Lemma last_kept_replace (cs : list Conversation) (ms' : list Message)
    (c' : Conversation) :
  last_kept_or_stored cs ms' c' ->
  Forall (last_kept_or_stored cs ms') (replace_conv c' cs).
Proof.
  intros Hc. unfold replace_conv.
  apply Forall_update_first; [apply last_kept_refl | auto].
Qed.

Lemma last_kept_created (cs : list Conversation) (ms' : list Message)
    (c c' : Conversation) (n : ObjectId) :
  Forall (fun x => (conv_id x < n)%N) cs ->
  conv_id c = n -> conv_id c' = n ->
  last_stored ms' c' ->
  Forall (last_kept_or_stored cs ms') (replace_conv c' (cs ++ [c])).
Proof.
  intros Hf Hc Hc' Hl. unfold replace_conv. rewrite Hc'.
  rewrite update_first_app_fresh by now apply find_fresh_id.
  apply Forall_app. split; [apply last_kept_refl|].
  cbn. rewrite Hc, oid_eqb_refl. constructor; [now right | constructor].
Qed.

Lemma last_stored_new (ms : list Message) (m : Message) (c : Conversation)
    (t : option string) (d : Date) :
  lastMessage c = Some (mkLastMessage (msg_id m) t d) ->
  conversationId m = conv_id c ->
  last_stored (ms ++ [m]) c.
Proof.
  intros Hl Hc l E. rewrite Hl in E. injection E as <-.
  exists m. split; [apply in_or_app; right; now left|now split].
Qed.

Lemma last_stored_none (ms : list Message) (c : Conversation) :
  lastMessage c = None -> last_stored ms c.
Proof. intros H l E. congruence. Qed.

Lemma last_stored_latest (cid : ObjectId) (ms : list Message) (l : Message)
    (c : Conversation) (t : option string) (d : Date) :
  latest_active cid ms = Some l ->
  conv_id c = cid ->
  lastMessage c = Some (mkLastMessage (msg_id l) t d) ->
  last_stored ms c.
Proof.
  intros Hl Hc Hm x E. rewrite Hm in E. injection E as <-.
  pose proof (latest_active_spec cid ms) as Hs. rewrite Hl in Hs.
  destruct Hs as (Hin & Hid & _). exists l. repeat split; [exact Hin|congruence].
Qed.

Lemma handle_last_kept (r : Request) (w : World) :
  wf w ->
  Forall (last_kept_or_stored (conversations w) (messages (snd (run (handle wall r) w))))
         (conversations (snd (run (handle wall r) w))).
Proof.
  destruct w as [cs ms us nid k]. intros [Hnd Hfr _]. cbn [conversations next_oid] in *.
  destruct r; cbn [handle];
    unfold getOrCreatePrivateConversation, getMessagesByConversationId, markMessagesSeen,
      deleteMessageForMe, deleteMessageForEveryone, deleteConversationForUser,
      createConversation, handlePrivateConversation, handleGroupConversation,
      softDeleteConversation, send_message, message_deleteForEveryone, chat_delete;
    steps; branch; cbn [snd messages conversations];
    try first
      [ apply last_kept_refl
      | apply last_kept_update_first; intros c; split; reflexivity
      | apply Forall_app; split;
        [apply last_kept_refl | constructor; [right; now apply last_stored_none|constructor]]
      | eapply last_kept_created;
        [exact Hfr | reflexivity | reflexivity | eapply last_stored_new; reflexivity]
      | match goal with
        | H : find _ cs = Some ?c |- _ =>
            apply last_kept_replace; left; exists c;
            split; [exact (proj1 (find_some _ _ H)) | split; reflexivity]
        end
      | apply last_kept_replace; right; now apply last_stored_none
      | apply last_kept_replace; right; eapply last_stored_latest;
        [eassumption | cbn; eapply find_by_id; eassumption | reflexivity]
      | apply last_kept_replace; right; eapply last_stored_new;
        [reflexivity | cbn; symmetry; eapply find_by_id; eassumption] ].
Qed.

Lemma handle_event_last_kept (e : Event) (w : World) :
  wf w ->
  Forall (last_kept_or_stored (conversations w)
            (messages (snd (run (handle_event wall e) w))))
         (conversations (snd (run (handle_event wall e) w))).
Proof.
  destruct e as [r|u ids|u m]; cbn [handle_event].
  - apply handle_last_kept.
  - intros _. destruct ids as [[|i r]|]; try apply last_kept_refl.
    unfold message_seen, run, bind.
    pose proof (seen_each_returns u (i :: r) w) as Hr.
    pose proof (seen_each_grows u (i :: r) w) as (_ & Hc & _).
    destruct (seen_each wall u (i :: r) w) as [[[]|x] w']; cbn in *; [|discriminate].
    rewrite Hc. apply last_kept_refl.
  - intros _. destruct w as [cs ms us nid k]. unfold message_deleteForMe. steps.
    destruct m; cbn [snd conversations]; apply last_kept_refl.
Qed.

Lemma handle_event_keeps_last (e : Event) (w : World) :
  wf w ->
  Forall (last_stored (messages w)) (conversations w) ->
  Forall (last_stored (messages (snd (run (handle_event wall e) w))))
         (conversations (snd (run (handle_event wall e) w))).
Proof.
  intros Hwf H.
  pose proof (handle_event_messages_grow e w) as Hm.
  pose proof (handle_event_last_kept e w Hwf) as Hk.
  eapply Forall_impl; [|exact Hk]. intros c' [(c & Hin & Hl & Hid)|Hs]; [|exact Hs].
  rewrite Forall_forall in H.
  pose proof (last_stored_grows _ _ _ Hm (H c Hin)) as Hc.
  intros l E. rewrite Hl in E. destruct (Hc l E) as (m & Hm1 & Hm2 & Hm3).
  exists m. repeat split; [exact Hm1 | exact Hm2 | congruence].
Qed.

(** X22: [lastMessage] never dangles: if the [lastMessage] of every stored
    conversation, when set, names a stored message of that conversation,
    this is so after any sequence of requests (from a state with unique
    conversation ids below the id generator). *)
Theorem lastMessage_names_stored_message (es : list Event) (w : World) :
  wf w ->
  Forall (last_stored (messages w)) (conversations w) ->
  Forall (last_stored (messages (serve_events wall es w)))
         (conversations (serve_events wall es w)).
Proof.
  revert w. induction es as [|e es IH]; intros w Hwf H; cbn [serve_events]; [exact H|].
  apply IH; [now apply handle_event_wf | now apply handle_event_keeps_last].
Qed.

(** ** Creating a private conversation *)



(** ** Deleting a message for everyone, by REST and by socket *)

(** X24: the socket event [message:deleteForEveryone] and the REST
    operation [deleteMessageForEveryone] refuse the same requests and
    leave the same message collection; the socket event never writes a
    conversation, so the [lastMessage] recomputation is made by the REST
    operation only. *)
Theorem socket_deleteForEveryone_skips_lastMessage
    (w : World) (u : ObjectId) (p : IdParam) :
  messages (snd (run (message_deleteForEveryone wall u p) w))
  = messages (snd (run (deleteMessageForEveryone wall u p) w))
  /\ is_rejection (fst (run (message_deleteForEveryone wall u p) w))
     = is_rejection (fst (run (deleteMessageForEveryone wall u p) w))
  /\ conversations (snd (run (message_deleteForEveryone wall u p) w)) = conversations w.
Proof.
  destruct w as [cs ms us nid k].
  unfold message_deleteForEveryone, deleteMessageForEveryone. steps.
  destruct p as [| |mid]; try (now repeat split).
  destruct (find _ ms) as [m|]; [|now repeat split].
  destruct (oid_eqb (senderId m) u); cbn [negb]; [|now repeat split].
  branch; now repeat split.
Qed.

(** ** A message that was sent is served *)

Lemma sort_desc_newest (l : list Message) (m : Message) :
  (forall x, In x l -> createdAt x < createdAt m) ->
  sort_desc (l ++ [m]) = m :: sort_desc l.
Proof.
  unfold sort_desc. induction l as [|x l IH]; intros H; [reflexivity|].
  cbn [app fold_right]. rewrite IH by (intros y Hy; apply H; now right).
  cbn [insert_desc].
  destruct (Z.ltb_spec (createdAt m) (createdAt x)) as [Hlt|_]; [|reflexivity].
  specialize (H x (or_introl eq_refl)). lia.
Qed.

Lemma listing_filter_holds (cid u : ObjectId) (h : option Date) (m : Message) :
  conversationId m = cid -> mem u (deletedFor m) = false ->
  (forall d, h = Some d -> d < createdAt m) ->
  matches (listing_filter cid u h None) m = true.
Proof.
  intros Hc Hd Hh. unfold listing_filter. destruct h as [d|]; cbn.
  - rewrite Hc, oid_eqb_refl, Hd. cbn. rewrite andb_true_r. apply Z.ltb_lt. now apply Hh.
  - now rewrite Hc, oid_eqb_refl, Hd.
Qed.

(** X25: a message that was sent is served: after a [send:message] that
    was acknowledged, the first page of the conversation served to any
    user with access ends with the new message, provided the clock has
    advanced since the older messages of the conversation were created
    and since the viewer's watermark was set. *)
Theorem sent_message_is_listed
    (w : World) (u v cid : ObjectId) (txt : option string)
    (atts : option (list Attachment)) (msg : Message) (c : Conversation)
    (limitQ : option nat) :
  fst (run (send_message wall u (ValidId cid) txt atts) w) = AckSent msg ->
  let w1 := snd (run (send_message wall u (ValidId cid) txt atts) w) in
  find (access_query v cid) (conversations w1) = Some c ->
  (forall m, In m (messages w) -> conversationId m = cid ->
             createdAt m < createdAt msg) ->
  (forall h, hideBefore_of v c = Some h -> h < createdAt msg) ->
  exists older,
    page_items (fst (run (getMessagesByConversationId wall v (ValidId cid) limitQ None)
                       w1))
    = older ++ [msg].
Proof.
  intros Hr w1 Hc Hnew Hhide. rewrite listing_items, Hc. unfold page_of.
  pose proof (find_some _ _ Hc) as [_ Hq]. apply access_query_id in Hq.
  assert (Hm : messages w1 = messages w ++ [msg]
               /\ conversationId msg = cid /\ deletedFor msg = []).
  { subst w1. revert Hr. destruct w as [cs ms us nid k].
    unfold send_message. steps.
    destruct (find _ cs) as [conv|]; [|discriminate].
    destruct (existsb _ _); cbn [negb]; [|discriminate].
    cbn [fst snd messages]. intros [= <-]. now repeat split. }
  destruct Hm as (Hms & Hcid & Hdel). rewrite Hms, filter_app. cbn [filter].
  rewrite listing_filter_holds;
    [| congruence | now rewrite Hdel | exact Hhide].
  rewrite sort_desc_newest.
  - pose proof (page_limit_bounds limitQ) as Hl.
    destruct (page_limit limitQ 30) as [|n]; [lia|].
    cbn [firstn rev]. eauto.
  - intros x Hx. apply filter_In in Hx. destruct Hx as [Hin Hx].
    apply listing_filter_base in Hx. apply Hnew; [exact Hin | destruct Hx; congruence].
Qed.

(** ** A new message and the participant records *)

Lemma map_update_first_found {A B} (g : A -> B) (q : A -> bool) (y : A) (l : list A)
    (x : A) :
  find q l = Some x -> g y = g x -> map g (update_first q (fun _ => y) l) = map g l.
Proof.
  intros Hf Hg. induction l as [|z l IH]; cbn [find update_first map] in *; [discriminate|].
  destruct (q z); cbn [map].
  - injection Hf as ->. now rewrite Hg.
  - now rewrite IH.
Qed.

(** X26: a new message does not bring a hidden conversation back:
    [send:message] leaves the ids and all participant records of all
    conversations as they were, so a conversation that a participant has
    hidden stays out of that participant's conversation list. *)
Theorem send_message_keeps_participants
    (w : World) (u : ObjectId) (p : IdParam) (txt : option string)
    (atts : option (list Attachment)) (v : ObjectId) :
  let w1 := snd (run (send_message wall u p txt atts) w) in
  map conv_id (conversations w1) = map conv_id (conversations w)
  /\ map participants (conversations w1) = map participants (conversations w)
  /\ map (visible_to v) (conversations w1) = map (visible_to v) (conversations w).
Proof.
  destruct w as [cs ms us nid k]. unfold send_message. steps.
  destruct p as [| |cid]; try (now repeat split).
  destruct (find _ cs) as [conv|] eqn:Hf; [|now repeat split].
  destruct (existsb _ _); cbn [negb]; [|now repeat split].
  cbn [snd conversations]. unfold replace_conv.
  cbn [conv_id set_conv_updatedAt set_lastMessage].
  rewrite (find_by_id _ _ _ Hf).
  repeat split; now apply (map_update_first_found _ _ _ _ conv).
Qed.

End MoreProofs.

(** ** The properties on the sample data *)

Lemma two_users_wf : wf two_users.
Proof. split; constructor. Qed.

Lemma hi_world_wf : wf hi_world.
Proof. apply serve_wf, two_users_wf. Qed.


(** X3, when Alice hides the conversation and Bob answers. *)
Lemma conversations_only_evolve_witness :
  grows conv_evolves (conversations hi_world)
    (conversations
       (serve_events clock
          [Served (DeleteSoft (Some alice) (ValidId 1%N));
           Served (SockSend bob (ValidId 1%N) (Some "again") None)] hi_world)).
Proof.
  apply (conversations_only_evolve clock
           [Served (DeleteSoft (Some alice) (ValidId 1%N));
            Served (SockSend bob (ValidId 1%N) (Some "again") None)] hi_world).
  exact hi_world_wf.
Defined.

(** X4, for the conversation of Alice and Bob once Alice deleted the chat. *)
Lemma conversation_invariant_kept_witness :
  let w := serve_events clock [Served (SockChatDelete alice (ValidId 1%N))] hi_world in
  let c := mkConversation 1 private
             [mkParticipant alice (Some 1004) None None None false; newParticipant bob]
             None None (Some (mkLastMessage 2 (Some "hi") 1000)) 1001 1005 in
  In c (conversations w)
  /\ NoDup (map conv_id (conversations w))
  /\ (type c = private -> List.length (participants c) = 2%nat)
  /\ (forall p, In p (participants c) ->
                deletedAt p = None -> hideMessagesBefore p = None).
Proof.
  intros w c.
  assert (Hin : In c (conversations w)) by (left; vm_compute; reflexivity).
  split; [exact Hin|].
  apply (conversation_invariant_kept clock
           [Served (SockChatDelete alice (ValidId 1%N))] hi_world c).
  - exact hi_world_wf.
  - exact Hin.
Defined.

(** X5, when Alice deletes the conversation and comes back. *)
Lemma never_blocked_archived_muted_witness :
  Forall (fun c => Forall (fun p => blocked p = false /\ archivedAt p = None
                                    /\ mutedUntil p = None) (participants c))
    (conversations
       (serve_events clock
          [Served (DeleteConversation alice (ValidId 1%N));
           Served (PostCreate (Some alice) (CreatePrivate (ValidId bob) (Some "back")))]
          hi_world)).
Proof.
  apply (never_blocked_archived_muted clock
           [Served (DeleteConversation alice (ValidId 1%N));
            Served (PostCreate (Some alice) (CreatePrivate (ValidId bob) (Some "back")))]
           hi_world).
  vm_compute. repeat constructor.
Defined.

(** X7, when Bob marks the message seen twice and deletes it for himself
    twice. *)
Lemma user_arrays_stay_duplicate_free_witness :
  Forall arrays_nodup
    (messages
       (serve_events clock
          [SockSeen bob (Some [2%N; 2%N]); Served (PostSeen bob (Some [2%N]));
           SockDeleteForMe bob (ValidId 2%N);
           Served (DeleteMessageMe bob (ValidId 2%N))] hi_world)).
Proof.
  apply (user_arrays_stay_duplicate_free clock
           [SockSeen bob (Some [2%N; 2%N]); Served (PostSeen bob (Some [2%N]));
            SockDeleteForMe bob (ValidId 2%N);
            Served (DeleteMessageMe bob (ValidId 2%N))] hi_world).
  vm_compute. repeat constructor.
Defined.

(** X9, for the message of Alice in the page served to Bob. *)
Lemma listing_first_page_complete_witness :
  let m := mkMessage 2 1 alice (Some "hi") [] false [] [] [] 1002 1002 in
  In m (messages hi_world)
  /\ In m (page_items (fst (run (getMessagesByConversationId clock bob (ValidId 1%N)
                                   None None) hi_world))).
Proof.
  intros m.
  assert (Hin : In m (messages hi_world)) by (left; vm_compute; reflexivity).
  split; [exact Hin|].
  apply (listing_first_page_complete clock hi_world bob 1%N
           (mkConversation 1 private [newParticipant alice; newParticipant bob]
              None None (Some (mkLastMessage 2 (Some "hi") 1000)) 1001 1003)
           None m).
  - vm_compute. reflexivity.
  - vm_compute. reflexivity.
  - exact Hin.
  - reflexivity.
  - reflexivity.
  - intros h Hh. vm_compute in Hh. discriminate Hh.
Defined.

(** X11, when Alice hides the conversation. *)
Lemma participants_change_for_requester_only_witness :
  grows (conv_acted_by (Some alice)) (conversations hi_world)
    (conversations
       (snd (run (handle_event clock (Served (DeleteSoft (Some alice) (ValidId 1%N))))
               hi_world))).
Proof.
  apply (participants_change_for_requester_only clock
           (Served (DeleteSoft (Some alice) (ValidId 1%N))) hi_world).
  exact hi_world_wf.
Defined.

(** X12, when Alice hides the conversation twice. *)
Lemma softDelete_twice_keeps_watermark_witness :
  let w1 := snd (run (softDeleteConversation clock (Some alice) (ValidId 1%N)) hi_world) in
  let (r2, w2) := run (softDeleteConversation clock (Some alice) (ValidId 1%N)) w1 in
  r2 = Http 200 (JMessage "Conversation already deleted for this user.")
  /\ conversations w2 = conversations w1
  /\ messages w2 = messages w1.
Proof.
  apply (softDelete_twice_keeps_watermark clock hi_world alice 1%N
           "Conversation hidden successfully for the current user." 1004).
  vm_compute. reflexivity.
Defined.

(** X13, when Alice deletes the conversation with Bob. *)
Lemma delete_hides_conversation_for_caller_only_witness :
  let c := mkConversation 1 private [newParticipant alice; newParticipant bob]
             None None (Some (mkLastMessage 2 (Some "hi") 1000)) 1001 1003 in
  let c1 := mkConversation 1 private
              [mkParticipant alice (Some 1004) (Some 1004) None None false;
               newParticipant bob]
              None None (Some (mkLastMessage 2 (Some "hi") 1000)) 1001 1005 in
  (forall x, In x (@nil Conversation) -> conv_id x <> 1%N)
  /\ (forall i, In i (map conv_id [c1]) <-> In i (map conv_id [c])).
Proof.
  intros c c1.
  apply (delete_hides_conversation_for_caller_only clock hi_world alice bob 1%N
           [] [c1] [c]).
  - exact hi_world_wf.
  - discriminate.
  - vm_compute. reflexivity.
  - vm_compute. reflexivity.
  - vm_compute. reflexivity.
Defined.

(** X14, when Alice creates the group "team" with Bob and Carol (9). *)
Lemma group_creation_shape_witness :
  let w := mkWorld [] []
             [mkUser alice "alice" true; mkUser bob "bob" true; mkUser 9 "carol" true]
             1%N 0 in
  let c := mkConversation 1 group
             [newParticipant alice; newParticipant bob; newParticipant 9]
             (Some "team") None (Some (mkLastMessage 2 (Some "hello") 1001))
             1000 1002 in
  exists members n,
    Some [ValidId bob; ValidId 9%N] = Some (map ValidId members)
    /\ (2 <= List.length members)%nat
    /\ NoDup (alice :: members)
    /\ (forall i, In i members -> In i (map user_id (users w)))
    /\ isNonEmptyString (Some " team ") = Some n
    /\ type c = group
    /\ groupName c = Some (trim n)
    /\ participants c = newParticipant alice :: map newParticipant members.
Proof.
  intros w c.
  apply (group_creation_shape clock w alice (Some [ValidId bob; ValidId 9%N])
           (Some " team ") None (Some "hello")
           "Group conversation and initial message created successfully." c).
  - vm_compute. repeat constructor; cbn; intuition discriminate.
  - vm_compute. reflexivity.
Defined.


(** X16, when Bob deletes the message of Alice for himself. *)
Lemma deleteForMe_hides_for_caller_only_witness :
  let w1 := snd (run (deleteMessageForMe clock bob (ValidId 2%N)) hi_world) in
  (forall x, In x (page_items (fst (run (getMessagesByConversationId clock bob
                                           (ValidId 1%N) None None) w1))) ->
             msg_id x <> 2%N)
  /\ map msg_id (page_items (fst (run (getMessagesByConversationId clock alice
                                         (ValidId 1%N) None None) w1)))
     = map msg_id (page_items (fst (run (getMessagesByConversationId clock alice
                                           (ValidId 1%N) None None) hi_world))).
Proof.
  apply (deleteForMe_hides_for_caller_only clock hi_world bob alice 2%N
           (ValidId 1%N) None None).
  - vm_compute. repeat constructor. intros [].
  - discriminate.
Defined.

(** X19, when Alice deletes the conversation with Bob and comes back. *)
Lemma delete_then_restore_round_trip_witness :
  let conv := mkConversation 1 private [newParticipant alice; newParticipant bob]
                None None (Some (mkLastMessage 2 (Some "hi") 1000)) 1001 1003 in
  let w1 := snd (run (deleteConversationForUser clock alice (ValidId 1%N)) hi_world) in
  let (r, w2) := run (handlePrivateConversation clock alice (ValidId bob) (Some "back")) w1 in
  exists c',
    r = Http 200 (JMessageConversation "Private conversation restored." c')
    /\ find (existing_query alice bob) (conversations w2) = Some c'
    /\ conv_id c' = conv_id conv
    /\ participants c'
       = map (fun p => if is_user alice p then set_deleted None None p else p)
             (participants conv)
    /\ messages w2 = messages hi_world.
Proof.
  intros conv.
  apply (delete_then_restore_round_trip clock hi_world alice bob (Some "back")
           (mkUser bob "bob" true) conv (newParticipant alice) (newParticipant bob)).
  - vm_compute. repeat constructor. intros [].
  - discriminate.
  - discriminate.
  - vm_compute. reflexivity.
  - vm_compute. reflexivity.
  - left. reflexivity.
  - reflexivity.
  - reflexivity.
  - reflexivity.
  - reflexivity.
  - reflexivity.
Defined.



(** X22, when Alice sends a second message and deletes it for everyone. *)
Lemma lastMessage_names_stored_message_witness :
  Forall (last_stored
            (messages
               (serve_events clock
                  [Served (SockSend alice (ValidId 1%N) (Some "secret") None);
                   Served (DeleteMessageEveryone alice (ValidId 3%N))] hi_world)))
    (conversations
       (serve_events clock
          [Served (SockSend alice (ValidId 1%N) (Some "secret") None);
           Served (DeleteMessageEveryone alice (ValidId 3%N))] hi_world)).
Proof.
  apply (lastMessage_names_stored_message clock
           [Served (SockSend alice (ValidId 1%N) (Some "secret") None);
            Served (DeleteMessageEveryone alice (ValidId 3%N))] hi_world).
  - exact hi_world_wf.
  - apply Forall_forall. intros c Hc. vm_compute in Hc. destruct Hc as [<-|[]].
    intros l E. vm_compute in E. injection E as <-.
    eexists. split; [left; reflexivity|]. split; reflexivity.
Defined.


(** X25, when Bob answers and Alice reads the conversation. *)
Lemma sent_message_is_listed_witness :
  let msg := mkMessage 3 1 bob (Some "again") [] false [] [] [] 1004 1004 in
  let w1 := snd (run (send_message clock bob (ValidId 1%N) (Some "again") None)
                   hi_world) in
  exists older,
    page_items (fst (run (getMessagesByConversationId clock alice (ValidId 1%N) None None)
                       w1))
    = older ++ [msg].
Proof.
  intros msg.
  apply (sent_message_is_listed clock hi_world bob alice 1%N (Some "again") None msg
           (mkConversation 1 private [newParticipant alice; newParticipant bob]
              None None (Some (mkLastMessage 3 (Some "again") 1004)) 1001 1006) None).
  - vm_compute. reflexivity.
  - vm_compute. reflexivity.
  - intros m Hm _. vm_compute in Hm. destruct Hm as [<-|[]]. vm_compute. reflexivity.
  - intros h Hh. vm_compute in Hh. discriminate Hh.
Defined.

(** ** The [protect] middleware *)

Lemma list_ascii_of_string_app (s t : string) :
  list_ascii_of_string (s ++ t)%string = list_ascii_of_string s ++ list_ascii_of_string t.
Proof. induction s as [|c s IH]; cbn; [reflexivity|now rewrite IH]. Qed.

Lemma trim_start_head (c : ascii) (l : list ascii) :
  is_space c = false -> trim_start (c :: l) = c :: l.
Proof. intros H. cbn [trim_start]. now rewrite H. Qed.

Lemma trim_start_app_clean (l r : list ascii) :
  l <> [] -> Forall (fun c => is_space c = false) l -> trim_start (l ++ r) = l ++ r.
Proof.
  intros Hne H. destruct H as [|c l' Hc _]; [congruence|].
  cbn [app]. now apply trim_start_head.
Qed.

(** Trimming leaves alone a string that starts without white space and
    ends in a non-empty run of characters without white space. *)
Lemma trim_clean (c : ascii) (p t : string) :
  is_space c = false -> t <> "" -> no_space t ->
  trim (String c p ++ t)%string = (String c p ++ t)%string.
Proof.
  intros Hc Hne Ht. unfold trim.
  rewrite list_ascii_of_string_app. cbn [list_ascii_of_string app].
  rewrite trim_start_head by exact Hc.
  change (c :: list_ascii_of_string p ++ list_ascii_of_string t)
    with ((c :: list_ascii_of_string p) ++ list_ascii_of_string t).
  rewrite rev_app_distr.
  rewrite trim_start_app_clean.
  - rewrite <- rev_app_distr, rev_involutive.
    change ((c :: list_ascii_of_string p) ++ list_ascii_of_string t)
      with (list_ascii_of_string (String c p) ++ list_ascii_of_string t).
    rewrite <- list_ascii_of_string_app. apply string_of_list_ascii_of_string.
  - intros E. apply (f_equal (@rev ascii)) in E. rewrite rev_involutive in E.
    cbn in E. destruct t; [congruence|discriminate].
  - apply Forall_rev. exact Ht.
Qed.

Lemma substring_all (t : string) : substring 0 (String.length t) t = t.
Proof. induction t as [|c t IH]; cbn; [reflexivity|now rewrite IH]. Qed.

Lemma no_space_tail (c : ascii) (t : string) :
  no_space (String c t) -> is_space c = false /\ no_space t.
Proof. unfold no_space. cbn. intros H. inversion H; subst. now split. Qed.

Lemma index_no_space (t : string) : no_space t -> index 0 " " t = None.
Proof.
  induction t as [|c t IH]; intros H; [reflexivity|].
  apply no_space_tail in H. destruct H as [Hc Ht].
  cbn [index]. rewrite (IH Ht).
  cbn [prefix]. destruct (ascii_dec " " c) as [E|E]; [|reflexivity].
  subst c. discriminate Hc.
Qed.

Lemma visible_no_space (t : string) : visible_ascii t -> no_space t.
Proof.
  unfold visible_ascii, no_space. apply Forall_impl. intros c H.
  unfold is_space. remember (nat_of_ascii c) as n eqn:E. clear E.
  do 33 (destruct n as [|n]; [lia|]). reflexivity.
Qed.

Lemma or_null_some (t : string) : t <> "" -> or_null (Some t) = Some t.
Proof.
  intros H. unfold or_null. destruct (String.eqb t "") eqn:E; [|reflexivity].
  apply String.eqb_eq in E. contradiction.
Qed.

Lemma prefix_empty (t : string) : prefix "" t = true.
Proof. now destruct t. Qed.

Lemma header_token_bearer (t : string) :
  t <> "" -> no_space t -> header_token (Some ("Bearer " ++ t)%string) = Some t.
Proof.
  intros Hne Ht. unfold header_token.
  rewrite or_null_some by (cbn; discriminate).
  cbv zeta. change ("Bearer " ++ t)%string with (String "B" "earer " ++ t)%string.
  rewrite trim_clean by (try reflexivity; assumption).
  unfold split_second. cbn [append prefix index]. rewrite !prefix_empty. cbn.
  rewrite Nat.sub_0_r, substring_all.
  now rewrite (index_no_space t Ht).
Qed.

(** X27: a header [Bearer <t>], for a non-empty [t] of visible ASCII
    characters, makes [protect] go on with [t]: the cookie is not looked
    at. *)
Theorem bearer_token_wins (t : string) (cookie : option string) :
  t <> "" -> visible_ascii t ->
  extract_token (Some ("Bearer " ++ t)%string) cookie = Some t.
Proof.
  intros Hne Ht. apply visible_no_space in Ht. unfold extract_token.
  rewrite header_token_bearer by assumption.
  now rewrite or_null_some.
Qed.

Lemma substring_prefix_nonempty (e : nat) (v : string) :
  index 0 "du" v = Some (S e) -> substring 0 (S e) v <> "".
Proof. destruct v as [|c v]; [discriminate|]. cbn [substring]. discriminate. Qed.

(** X28: a header [token=<v>], for a non-empty [v] of visible ASCII
    characters that does not contain [token=], is cut at the first [du] in
    [v]: [protect] goes on with the part of [v] before it, with all of [v]
    when there is no [du], and falls back to the cookie when [v] starts
    with [du]. *)
Theorem token_format_cut_at_du (v : string) (cookie : option string) :
  v <> "" -> visible_ascii v -> index 0 "token=" v = None ->
  extract_token (Some ("token=" ++ v)%string) cookie =
  match index 0 "du" v with
  | None => Some v
  | Some O => or_null cookie
  | Some (S e) => Some (substring 0 (S e) v)
  end.
Proof.
  intros Hne Hv Hi. apply visible_no_space in Hv. unfold extract_token, header_token.
  rewrite or_null_some by (cbn; discriminate).
  cbv zeta. change ("token=" ++ v)%string with (String "t" "oken=" ++ v)%string.
  rewrite trim_clean by (try reflexivity; assumption).
  unfold split_second. cbn [append prefix index]. rewrite !prefix_empty. cbn.
  rewrite Nat.sub_0_r, substring_all, Hi.
  destruct (index 0 "du" v) as [[|e]|] eqn:Hd.
  - cbn. destruct v; reflexivity.
  - now rewrite or_null_some by (now apply substring_prefix_nonempty).
  - now rewrite or_null_some.
Qed.

(** X29: [protect] writes nothing; when it calls [next] the request
    carries the id of a stored user, and otherwise the answer is a 401. *)
Theorem protect_admits_stored_users_only
    (verifyToken : string -> option ObjectId)
    (authorization cookie : option string) (w : World) :
  snd (protect verifyToken authorization cookie w) = w /\
  match fst (protect verifyToken authorization cookie w) with
  | inl uid =>
      exists token user,
        extract_token authorization cookie = Some token /\
        verifyToken token = Some uid /\
        In user (users w) /\ user_id user = uid
  | inr r => exists m, r = Http 401 (JMessage m)
  end.
Proof.
  unfold protect, bind, or_reject.
  destruct (extract_token authorization cookie) as [token|] eqn:Ht;
    unfold ret, respond, find_user; cbn [fst snd].
  2:{ split; [reflexivity|]. eexists; reflexivity. }
  destruct (verifyToken token) as [id|] eqn:Hv; cbn [fst snd].
  2:{ split; [reflexivity|]. eexists; reflexivity. }
  destruct (find (fun x => oid_eqb (user_id x) id) (users w)) as [u|] eqn:Hu; cbn [fst snd].
  2:{ split; [reflexivity|]. eexists; reflexivity. }
  split; [reflexivity|].
  apply find_some in Hu. destruct Hu as [Hin Hid].
  apply oid_eqb_eq in Hid.
  exists token, u. repeat split; try assumption. now rewrite Hid.
Qed.

(** X27, on the header [Bearer abc.def] sent with a cookie. *)
Lemma bearer_token_wins_witness :
  extract_token (Some "Bearer abc.def") (Some "cookie") = Some "abc.def".
Proof.
  apply (bearer_token_wins "abc.def" (Some "cookie")).
  - discriminate.
  - unfold visible_ascii. cbn. repeat constructor; lia.
Defined.

(** X28, on the header [token=abcduxyz]: the token is [abc]. *)
Lemma token_format_cut_at_du_witness :
  extract_token (Some "token=abcduxyz") None = Some "abc".
Proof.
  apply (token_format_cut_at_du "abcduxyz" None).
  - discriminate.
  - unfold visible_ascii. cbn. repeat constructor; lia.
  - reflexivity.
Defined.
